(** * scripts/releases/set-version: the monorepo version synchroniser

    A shallow embedding of [scripts/releases/set-version/index.js]
    ([updatePackageJson], [setVersion] and the script entry) and the
    properties of the version-synchronisation engine proved about it.

    Modelling conventions.
    - A JavaScript object is the ordered list of its own enumerable
      string-keyed properties ([obj]), in the order [for ... in],
      [Object.keys], [Object.values] and [JSON.stringify] visit them.  The
      members an object inherits from [Object.prototype] are listed in
      [Object_prototype]: the operator [in] sees them, and reading one gives
      a built-in function.
    - Manifests come out of [JSON.parse]: they are trees of JSON values, so
      no two properties share an object.  The two other values a run can
      put into a manifest are there too: a built-in function (read through
      [Object.prototype]) and [undefined] (a hole left in an array by a
      longer [length]).
    - [packageJson] is a reference to a mutable object.  The embedding of
      [updatePackageJson] takes the contents of that object before the call
      and returns its contents after the call: a result different from the
      argument is a mutation of the caller's object.
    - Strings are sequences of UTF-8 bytes, the encoding the files are
      read and written in.
    - The collaborators ([getPackages], [setReactNativeVersion],
      [fs.writeFile], [path.join]) are not part of the file; they are
      variables of the section that embeds the driver. *)

From Stdlib Require Import String Ascii List Bool Arith Lia DecimalString.
From Stdlib Require Import ZArith Permutation.
Import ListNotations.
Open Scope string_scope.
Set Warnings "-register-all".

(** ** JavaScript objects as ordered property lists *)

Definition obj (A : Type) : Type := list (string * A).

Section Obj.
Context {A : Type}.

(** [Object.keys(o)] *)
Definition keys (o : obj A) : list string := map fst o.

(** [Object.values(o)] *)
Definition values (o : obj A) : list A := map snd o.

(** [o[k]]; [None] stands for [undefined]. *)
Fixpoint get (k : string) (o : obj A) : option A :=
  match o with
  | [] => None
  | (k', v) :: rest => if String.eqb k k' then Some v else get k rest
  end.

(** [k in o] *)
Definition has (k : string) (o : obj A) : bool :=
  match get k o with Some _ => true | None => false end.

(** [o[k] = v]: an existing property keeps its place, a new one is
    created after the others. *)
Fixpoint set (k : string) (v : A) (o : obj A) : obj A :=
  match o with
  | [] => [(k, v)]
  | (k', v') :: rest =>
      if String.eqb k k' then (k', v) :: rest else (k', v') :: set k v rest
  end.

(** [Object.fromEntries(entries)] *)
Definition fromEntries (entries : list (string * A)) : obj A :=
  fold_left (fun o e => set (fst e) (snd e) o) entries [].
End Obj.

(** ** JavaScript values *)

(** What [JSON.parse] produces, and the two other values a run can store:
    - a number carries the text [Number.prototype.toString] prints for it
      (["Infinity"] for what [1e999] parses to);
    - [JUndefined] is [undefined]; in an array it is a hole;
    - [JFunction f] is the built-in function named [f]. *)
Inductive json : Type :=
| JNull
| JBool (b : bool)
| JNum (text : string)
| JStr (s : string)
| JArr (elements : list json)
| JObj (properties : obj json)
| JUndefined
| JFunction (fname : string).

(** What a promise of the script can be rejected with. *)
Inductive error : Type :=
| TypeError                    (* [in] on a primitive, a failed conversion *)
| RangeError                   (* an invalid array length *)
| Rejected (reason : string).  (* a collaborator's own rejection *)

Inductive completion (A : Type) : Type :=
| Normal (a : A)
| Throw (e : error).
Arguments Normal {A} a.
Arguments Throw {A} e.

(** *** [Object.prototype] *)

(** The names every ordinary object inherits. *)
Definition Object_prototype : list string :=
  ["constructor"; "__defineGetter__"; "__defineSetter__"; "hasOwnProperty";
   "__lookupGetter__"; "__lookupSetter__"; "isPrototypeOf";
   "propertyIsEnumerable"; "toString"; "valueOf"; "__proto__";
   "toLocaleString"].

Definition inherited (k : string) : bool :=
  existsb (String.eqb k) Object_prototype.

(** [o[k]] for a name [k] that [o] inherits: the getter of [__proto__]
    gives [Object.prototype], an object without enumerable properties; the
    other members are functions, [constructor] being [Object]. *)
Definition Object_prototype_get (k : string) : json :=
  if String.eqb k "__proto__" then JObj []
  else if String.eqb k "constructor" then JFunction "Object"
  else JFunction k.

(** [k in o] for an ordinary object. *)
Definition in_object {A : Type} (k : string) (o : obj A) : bool :=
  has k o || inherited k.

(** *** Arrays *)

(** [String(i)] for an array index. *)
Definition index_key (i : nat) : string :=
  NilEmpty.string_of_uint (Nat.to_uint i).

(** The index [k] names, if it is one of [0 .. length - 1]. *)
Definition array_index (k : string) (length : nat) : option nat :=
  find (fun i => String.eqb k (index_key i)) (seq 0 length).

(** The names an array inherits from [Array.prototype] (ES2023) and, through
    it, from [Object.prototype].  An assignment under one of them creates a
    property that is not an element. *)
Definition Array_prototype : list string :=
  ["at"; "concat"; "copyWithin"; "fill"; "find"; "findIndex"; "findLast";
   "findLastIndex"; "lastIndexOf"; "pop"; "push"; "reverse"; "shift";
   "unshift"; "slice"; "sort"; "splice"; "includes"; "indexOf"; "join";
   "keys"; "entries"; "values"; "forEach"; "filter"; "flat"; "flatMap";
   "map"; "every"; "some"; "reduce"; "reduceRight"; "toReversed";
   "toSorted"; "toSpliced"; "with"].

Definition is_hole (j : json) : bool :=
  match j with JUndefined => true | _ => false end.

(** [k in a] for an array with the elements [l]. *)
Definition in_array (k : string) (l : list json) : bool :=
  match array_index k (length l) with
  | Some i => negb (is_hole (nth i l JUndefined))
  | None =>
      String.eqb k "length" || existsb (String.eqb k) Array_prototype
      || inherited k
  end.

Fixpoint replace_nth (i : nat) (x : json) (l : list json) : list json :=
  match l, i with
  | [], _ => []
  | _ :: rest, O => x :: rest
  | y :: rest, S i => y :: replace_nth i x rest
  end.

(** [a.length = n]: the elements are cut, or followed by holes. *)
Definition resize (n : N) (l : list json) : list json :=
  (firstn (N.to_nat n) l ++ repeat JUndefined (N.to_nat n - length l))%list.

(** *** [ToNumber] of a string, as far as an array length needs it *)

(** [a.length = v] keeps [v] when [ToNumber(v)] is an integer between [0]
    and [2^32 - 1], and throws a [RangeError] otherwise.  [ToNumber] reads
    a [StringNumericLiteral] and rounds its value to the nearest double;
    the value is kept exact here, as [mantissa * 10 ^ exponent]. *)

Open Scope nat_scope.

Definition codes (s : string) : list nat :=
  map nat_of_ascii (list_ascii_of_string s).

(** The width in bytes of the [StrWhiteSpaceChar] at the head: TAB, LF,
    VT, FF, CR, SP, U+00A0, U+1680, U+2000-U+200A, U+2028, U+2029, U+202F,
    U+205F, U+3000, U+FEFF. *)
Definition white_space_width (l : list nat) : nat :=
  match l with
  | a :: rest =>
      if ((9 <=? a) && (a <=? 13)) || (a =? 32) then 1
      else match rest with
           | b :: c :: _ =>
               if (a =? 194) && (b =? 160) then 2
               else if (a =? 225) && (b =? 154) && (c =? 128) then 3
               else if (a =? 226) && (b =? 128)
                       && (((128 <=? c) && (c <=? 138)) || (c =? 168)
                           || (c =? 169) || (c =? 175)) then 3
               else if (a =? 226) && (b =? 129) && (c =? 159) then 3
               else if (a =? 227) && (b =? 128) && (c =? 128) then 3
               else if (a =? 239) && (b =? 187) && (c =? 191) then 3
               else 0
           | b :: _ => if (a =? 194) && (b =? 160) then 2 else 0
           | [] => 0
           end
  | [] => 0
  end.

(** The same on the reversed bytes, for the end of the string. *)
Definition white_space_width_rev (l : list nat) : nat :=
  match l with
  | c :: rest =>
      if ((9 <=? c) && (c <=? 13)) || (c =? 32) then 1
      else match rest with
           | b :: a :: _ => white_space_width [a; b; c]
                            + (if (b =? 194) && (c =? 160) then 2 else 0)
                              * (if white_space_width [a; b; c] =? 0 then 1 else 0)
           | b :: _ => if (b =? 194) && (c =? 160) then 2 else 0
           | [] => 0
           end
  | [] => 0
  end.

Fixpoint skip_white_space (width : list nat -> nat) (fuel : nat)
    (l : list nat) : list nat :=
  match fuel with
  | O => l
  | S fuel =>
      match width l with
      | O => l
      | w => skip_white_space width fuel (skipn w l)
      end
  end.

Definition trim (l : list nat) : list nat :=
  let l := skip_white_space white_space_width (length l) l in
  rev (skip_white_space white_space_width_rev (length l) (rev l)).

Definition digit_value (base : nat) (c : nat) : option Z :=
  let d := if (48 <=? c) && (c <=? 57) then Some (c - 48)
           else if (97 <=? c) && (c <=? 102) then Some (c - 87)
           else if (65 <=? c) && (c <=? 70) then Some (c - 55)
           else None in
  match d with
  | Some d => if d <? base then Some (Z.of_nat d) else None
  | None => None
  end.

(** The value of a sequence of digits; [None] if a byte is not a digit. *)
Fixpoint digits_value (base : nat) (acc : Z) (l : list nat) : option Z :=
  match l with
  | [] => Some acc
  | c :: rest =>
      match digit_value base c with
      | Some d => digits_value base (acc * Z.of_nat base + d) rest
      | None => None
      end
  end.

(** The longest prefix of decimal digits, and what follows it. *)
Fixpoint take_digits (l : list nat) : list nat * list nat :=
  match l with
  | c :: rest =>
      if (48 <=? c) && (c <=? 57)
      then let (ds, tail) := take_digits rest in (c :: ds, tail)
      else ([], l)
  | [] => ([], [])
  end.

(** [ExponentPart], or nothing. *)
Definition exponent_value (l : list nat) : option Z :=
  match l with
  | [] => Some 0%Z
  | e :: rest =>
      if (e =? 101) || (e =? 69) then
        match rest with
        | s :: (_ :: _) as ds =>
            if s =? 43 then digits_value 10 0 ds
            else if s =? 45 then option_map Z.opp (digits_value 10 0 ds)
            else digits_value 10 0 rest
        | [_] => digits_value 10 0 rest
        | [] => None
        end
      else None
  end.

(** [StrUnsignedDecimalLiteral] other than [Infinity], as the pair of a
    mantissa and a power of ten. *)
Definition unsigned_decimal (l : list nat) : option (Z * Z) :=
  let (int_part, after_int) := take_digits l in
  let (frac_part, after_frac) :=
    match after_int with
    | c :: rest => if c =? 46 then take_digits rest else ([], after_int)
    | [] => ([], after_int)
    end in
  match int_part, frac_part with
  | [], [] => None
  | _, _ =>
      match digits_value 10 0 (int_part ++ frac_part), exponent_value after_frac with
      | Some m, Some x => Some (m, (x - Z.of_nat (length frac_part))%Z)
      | _, _ => None
      end
  end.

Definition max_array_length : Z := 4294967295.

(** The integer in [0 .. 2^32 - 1] that [m * 10 ^ e] rounds to as a double,
    if it rounds to one ([0 < m]).  A value between the integers [q] and
    [q + 1] rounds to [q] when it is within half the gap to the next double
    above [q], and to [q + 1] when it is within half the gap to the next
    double below [q + 1]; ties go to the integer, whose significand is
    even. *)
Definition rounded_length (m e : Z) : option Z :=
  (if 0 <=? e then
     if 10 <=? e then None
     else if m * 10 ^ e <=? max_array_length then Some (m * 10 ^ e) else None
   else
     let p := 10 ^ (- e) in
     let q := m / p in
     let r := m mod p in
     let near_above n :=
       if n =? 0 then r * 2 ^ 1075 <=? p
       else r * 2 ^ (53 - Z.log2 n) <=? p in
     let near_below n :=
       if n =? 2 ^ Z.log2 n then (p - r) * 2 ^ (54 - Z.log2 n) <=? p
       else (p - r) * 2 ^ (53 - Z.log2 n) <=? p in
     if (q <=? max_array_length) && near_above q then Some q
     else if (q + 1 <=? max_array_length) && near_below (q + 1)
          then Some (q + 1)
     else None)%Z.

Definition decimal_length (negative : bool) (l : list nat) : option N :=
  match unsigned_decimal l with
  | None => None
  | Some (m, e) =>
      if (m =? 0)%Z then Some 0%N
      else match rounded_length m e with
           | Some n =>
               if negative then (if (n =? 0)%Z then Some 0%N else None)
               else Some (Z.to_N n)
           | None => None
           end
  end.

Definition radix_length (base : nat) (ds : list nat) : option N :=
  match ds with
  | [] => None
  | _ =>
      match digits_value base 0 ds with
      | Some n => if (n <=? max_array_length)%Z then Some (Z.to_N n) else None
      | None => None
      end
  end.

(** The array length the string [v] stands for, if it stands for one. *)
Definition to_array_length (v : string) : option N :=
  match trim (codes v) with
  | [] => Some 0%N
  | a :: rest =>
      if a =? 43 then decimal_length false rest
      else if a =? 45 then decimal_length true rest
      else match rest with
           | x :: ds =>
               if (a =? 48) && ((x =? 120) || (x =? 88)) then radix_length 16 ds
               else if (a =? 48) && ((x =? 111) || (x =? 79)) then radix_length 8 ds
               else if (a =? 48) && ((x =? 98) || (x =? 66)) then radix_length 2 ds
               else decimal_length false (a :: rest)
           | [] => decimal_length false (a :: rest)
           end
  end.

Open Scope string_scope.

(** *** Built-in functions *)

(** A built-in function has the own properties [length] and [name], which
    cannot be written, and [Object] has [prototype] too; it inherits from
    [Function.prototype], whose [arguments] and [caller] throw when written,
    and from [Object.prototype]. *)
Definition Function_prototype : list string :=
  ["apply"; "bind"; "call"; "toString"; "constructor"; "arguments"; "caller";
   "length"; "name"].

Definition in_function (k : string) (f : string) : bool :=
  (String.eqb k "prototype" && String.eqb f "Object")
  || existsb (String.eqb k) Function_prototype || inherited k.

Definition read_only_in_function (k : string) (f : string) : bool :=
  (String.eqb k "prototype" && String.eqb f "Object")
  || existsb (String.eqb k) ["length"; "name"; "arguments"; "caller"].

(** *** The operator [in] and the assignment of a string *)

(** [k in j]: a [TypeError] when [j] is not an object. *)
Definition has_property (k : string) (j : json) : completion bool :=
  match j with
  | JObj o => Normal (in_object k o)
  | JArr l => Normal (in_array k l)
  | JFunction f => Normal (in_function k f)
  | _ => Throw TypeError
  end.

(** [j[k] = v] in strict mode, for a string [v] and a [k] with [k in j].
    - On an object an own property is overwritten in place; under
      [__proto__] the inherited setter ignores a string; any other
      inherited name becomes a new own property, after the others.
    - On an array an element is overwritten; [length] cuts or extends the
      array, or throws a [RangeError]; any other name becomes a property
      that is not an element and that nothing here reads.
    - On a function a property that cannot be written throws a
      [TypeError]; any other name becomes a property that nothing here
      reads. *)
Definition assign (k : string) (v : string) (j : json) : completion json :=
  match j with
  | JObj o =>
      Normal (if has k o then JObj (set k (JStr v) o)
              else if String.eqb k "__proto__" then JObj o
              else JObj (o ++ [(k, JStr v)])%list)
  | JArr l =>
      match array_index k (length l) with
      | Some i => Normal (JArr (replace_nth i (JStr v) l))
      | None =>
          if String.eqb k "length" then
            match to_array_length v with
            | Some n => Normal (JArr (resize n l))
            | None => Throw RangeError
            end
          else Normal (JArr l)
      end
  | JFunction f =>
      if read_only_in_function k f then Throw TypeError else Normal j
  | _ => Throw TypeError
  end.

(** *** [ToPropertyKey] *)

(** The first rejection, or the strings joined by commas. *)
Fixpoint join (parts : list (completion string)) : completion string :=
  match parts with
  | [] => Normal ""
  | [part] => part
  | Throw e :: _ => Throw e
  | Normal s :: rest =>
      match join rest with
      | Normal t => Normal (s ++ "," ++ t)
      | Throw e => Throw e
      end
  end.

(** [ToString], as the operator [in] applies it to its left operand.  An
    object that has its own [toString], which a JSON value cannot call, has
    no primitive value: a [TypeError]. *)
Fixpoint to_string (j : json) : completion string :=
  match j with
  | JNull => Normal "null"
  | JUndefined => Normal "undefined"
  | JBool true => Normal "true"
  | JBool false => Normal "false"
  | JNum text => Normal text
  | JStr s => Normal s
  | JFunction f => Normal ("function " ++ f ++ "() { [native code] }")
  | JArr l =>
      join (map (fun x => match x with
                          | JNull | JUndefined => Normal ""
                          | _ => to_string x
                          end) l)
  | JObj o => if has "toString" o then Throw TypeError
              else Normal "[object Object]"
  end.

(** [ToPropertyKey] of what a property read gives; [None] is a missing
    property, that is [undefined]. *)
Definition to_property_key (v : option json) : completion string :=
  match v with
  | None => Normal "undefined"
  | Some j => to_string j
  end.

(** ** [JSON.stringify(value, null, 2)] *)

Definition nl : string := String (ascii_of_nat 10) EmptyString.
Definition dquote : string := String (ascii_of_nat 34) EmptyString.
Definition backslash : string := String (ascii_of_nat 92) EmptyString.

Definition hex_digit (n : nat) : string :=
  String.substring n 1 "0123456789abcdef".

(** [QuoteJSONString] on one code unit. *)
Definition escape_char (c : ascii) : string :=
  let n := nat_of_ascii c in
  if Nat.eqb n 34 then backslash ++ dquote
  else if Nat.eqb n 92 then backslash ++ backslash
  else if Nat.eqb n 8 then backslash ++ "b"
  else if Nat.eqb n 9 then backslash ++ "t"
  else if Nat.eqb n 10 then backslash ++ "n"
  else if Nat.eqb n 12 then backslash ++ "f"
  else if Nat.eqb n 13 then backslash ++ "r"
  else if Nat.ltb n 32
       then backslash ++ "u00" ++ hex_digit (n / 16) ++ hex_digit (n mod 16)
  else String c EmptyString.

Fixpoint escape (s : string) : string :=
  match s with
  | EmptyString => EmptyString
  | String c rest => escape_char c ++ escape rest
  end.

Definition quote (s : string) : string := dquote ++ escape s ++ dquote.

(** A value [JSON.stringify] has a text for: not [undefined], not a
    function. *)
Definition serialisable (j : json) : bool :=
  match j with
  | JUndefined | JFunction _ => false
  | _ => true
  end.

(** A number that is not finite is written [null]. *)
Definition number_text (text : string) : string :=
  if String.eqb text "Infinity" || String.eqb text "-Infinity"
     || String.eqb text "NaN"
  then "null" else text.

(** [SerializeJSONProperty] with gap ["  "], at indentation [indent]: a
    property without a text is left out of an object, and an element
    without a text is written [null]. *)
Fixpoint stringify_at (indent : string) (j : json) : string :=
  let stepback := indent in
  let indent := indent ++ "  " in
  let separator := "," ++ nl ++ indent in
  match j with
  | JNull => "null"
  | JBool true => "true"
  | JBool false => "false"
  | JNum text => number_text text
  | JStr s => quote s
  | JArr [] => "[]"
  | JArr l =>
      "[" ++ nl ++ indent
        ++ String.concat separator
             (map (fun x => if serialisable x then stringify_at indent x
                            else "null") l)
        ++ nl ++ stepback ++ "]"
  | JObj o =>
      match flat_map (fun p => match p with
                               | (k, v) =>
                                   if serialisable v
                                   then [quote k ++ ": " ++ stringify_at indent v]
                                   else []
                               end) o with
      | [] => "{}"
      | texts =>
          "{" ++ nl ++ indent ++ String.concat separator texts
            ++ nl ++ stepback ++ "}"
      end
  | JUndefined | JFunction _ => ""
  end.

(** [JSON.stringify(o, null, 2)] for an object [o]. *)
Definition stringify (o : obj json) : string := stringify_at "" (JObj o).

(** ** The manifest rewriter, [updatePackageJson] *)

(** The Flow type [PackageJson]: a manifest object. *)
Definition PackageJson : Type := obj json.

(** The arguments of one [fs.writeFile(file, data, 'utf-8')]. *)
Record WriteRequest : Type := { file : string; data : string }.

(** [for (const dependency in newPackageVersions)
       if (dependency in deps) deps[dependency] = newPackageVersions[dependency];]
    run on the object [deps] refers to; [remaining] is what is left of
    the enumeration of the keys of [newPackageVersions].  The result is the
    object as the loop leaves it, also when the loop throws. *)
Fixpoint for_in (remaining : list string) (newPackageVersions : obj string)
    (deps : json) : json * completion unit :=
  match remaining with
  | [] => (deps, Normal tt)
  | dependency :: rest =>
      match has_property dependency deps with
      | Throw e => (deps, Throw e)
      | Normal false => for_in rest newPackageVersions deps
      | Normal true =>
          match get dependency newPackageVersions with
          | Some v =>
              match assign dependency v deps with
              | Throw e => (deps, Throw e)
              | Normal deps => for_in rest newPackageVersions deps
              end
          | None => (* not reached: [dependency] is a key of the mapping *)
              for_in rest newPackageVersions deps
          end
      end
  end.

Definition dependencyFields : list string := ["dependencies"; "devDependencies"].

(** [deps == null] *)
Definition is_nullish (deps : option json) : bool :=
  match deps with
  | None | Some JNull | Some JUndefined => true
  | Some _ => false
  end.

(** [for (const dependencyField of [...]) { ... }] on the manifest object.
    The object [deps] refers to is the value of the property, so what the
    inner loop does to it shows in the manifest, also when it throws. *)
Fixpoint for_of (fields : list string) (newPackageVersions : obj string)
    (packageJson : PackageJson) : PackageJson * completion unit :=
  match fields with
  | [] => (packageJson, Normal tt)
  | dependencyField :: rest =>
      match get dependencyField packageJson with
      | Some deps =>
          if is_nullish (Some deps)
          then for_of rest newPackageVersions packageJson
          else
            match for_in (keys newPackageVersions) newPackageVersions deps with
            | (deps, Throw e) => (set dependencyField deps packageJson, Throw e)
            | (deps, Normal _) =>
                for_of rest newPackageVersions
                  (set dependencyField deps packageJson)
            end
      | None => for_of rest newPackageVersions packageJson
      end
  end.

(** [const packageName = packageJson.name;
     if (packageName in newPackageVersions)
       packageJson.version = newPackageVersions[packageName];]
    The mapping is an ordinary object: the name is also found in it when it
    is a member of [Object.prototype], and then read from there. *)
Definition set_own_version (newPackageVersions : obj string)
    (packageJson : PackageJson) : completion PackageJson :=
  match to_property_key (get "name" packageJson) with
  | Throw e => Throw e
  | Normal packageName =>
      Normal
        match get packageName newPackageVersions with
        | Some v => set "version" (JStr v) packageJson
        | None =>
            if inherited packageName
            then set "version" (Object_prototype_get packageName) packageJson
            else packageJson
        end
  end.

Section SetVersion.

(** [path.join] of Node. *)
Variable path_join : string -> string -> string.

(** The contents of the object [packageJson] refers to after the call,
    and what the returned promise is: the one of [fs.writeFile] with the
    arguments given, or a rejected one. *)
Definition updatePackageJson (packagePath : string) (packageJson : PackageJson)
    (newPackageVersions : obj string) : PackageJson * completion WriteRequest :=
  match set_own_version newPackageVersions packageJson with
  | Throw e => (packageJson, Throw e)
  | Normal packageJson =>
      match for_of dependencyFields newPackageVersions packageJson with
      | (packageJson, Throw e) => (packageJson, Throw e)
      | (packageJson, Normal _) =>
          (packageJson,
           Normal {| file := path_join packagePath "package.json";
                     data := stringify packageJson ++ nl |})
      end
  end.

(** ** The driver, [setVersion] *)

(** The type [PackageInfo] of [utils/monorepo], with the properties the
    script reads: [pkg.name] in the filter, [path] and [packageJson] in the
    call of [updatePackageJson]. *)
Record PackageInfo : Type :=
  { name : string; path : string; packageJson : PackageJson }.

Record PackagesFilter : Type :=
  { includePrivate : bool; includeReactNative : bool }.

(** The registry: the object [getPackages] resolves to, or its rejection. *)
Variable getPackages : PackagesFilter -> completion (obj PackageInfo).

(** The platform setter: how the promise of
    [setReactNativeVersion(version, mapping)] settles. *)
Variable setReactNativeVersion : string -> obj string -> completion unit.

(** The file system: how the promise of an [fs.writeFile] settles. *)
Variable writeFile : WriteRequest -> completion unit.

(** What a run does, in order. *)
Inductive event : Type :=
| CallSetReactNativeVersion (version : string) (mapping : obj string)
| CallUpdatePackageJson (pkg : PackageInfo) (mapping : obj string)
| CallWriteFile (request : WriteRequest).

(** [Object.fromEntries(Object.keys(packages).map(n => [n, version]))] *)
Definition newPackageVersions (packages : obj PackageInfo) (version : string)
    : obj string :=
  fromEntries (map (fun packageName => (packageName, version)) (keys packages)).

(** [Object.values(packages).filter(pkg => pkg.name !== 'react-native')] *)
Definition packagesToUpdate (packages : obj PackageInfo) : list PackageInfo :=
  filter (fun pkg => negb (String.eqb (name pkg) "react-native"))
         (values packages).

(** One element of [packagesToUpdate.map(...)]: the package as the call
    leaves it, what the call did, and how its promise settles. *)
Record dispatched : Type :=
  { after : PackageInfo; did : list event; settled : completion unit }.

Definition dispatch (mapping : obj string) (pkg : PackageInfo) : dispatched :=
  match updatePackageJson (path pkg) (packageJson pkg) mapping with
  | (packageJson', Normal request) =>
      {| after := {| name := name pkg; path := path pkg;
                     packageJson := packageJson' |};
         did := [CallUpdatePackageJson pkg mapping; CallWriteFile request];
         settled := writeFile request |}
  | (packageJson', Throw e) =>
      {| after := {| name := name pkg; path := path pkg;
                     packageJson := packageJson' |};
         did := [CallUpdatePackageJson pkg mapping];
         settled := Throw e |}
  end.

(** [await Promise.all(promises)]: fulfilled when every promise is, else
    rejected.  [Promise.all] rejects with the rejection that settles first,
    which for the writes is a matter of timing; the first of the list
    stands for it, and nothing below depends on which one it is. *)
Fixpoint Promise_all (promises : list (completion unit)) : completion unit :=
  match promises with
  | [] => Normal tt
  | Normal _ :: rest => Promise_all rest
  | Throw e :: _ => Throw e
  end.

(** A run of [setVersion]: the calls made, the packages handed to
    [updatePackageJson] as the run leaves them, and how the returned promise
    settles. *)
Record run : Type :=
  { trace : list event; rewritten : list PackageInfo;
    outcome : completion unit }.

Definition setVersion (version : string) (skipReactNativeVersion : bool) : run :=
  match getPackages {| includePrivate := false; includeReactNative := true |} with
  | Throw e => {| trace := []; rewritten := []; outcome := Throw e |}
  | Normal packages =>
      let mapping := newPackageVersions packages version in
      let reactNativeVersion :=
        if skipReactNativeVersion then "1000.0.0" else version in
      let call := CallSetReactNativeVersion reactNativeVersion mapping in
      match setReactNativeVersion reactNativeVersion mapping with
      | Throw e => {| trace := [call]; rewritten := []; outcome := Throw e |}
      | Normal _ =>
          let promises := map (dispatch mapping) (packagesToUpdate packages) in
          {| trace := call :: flat_map did promises;
             rewritten := map after promises;
             outcome := Promise_all (map settled promises) |}
      end
  end.

End SetVersion.

(** ** The command line *)

(** What [yargs(...).parseSync()] hands to the script: the positional
    [<to-version>] and the boolean option [--skip-react-native-version]
    (default [false]). *)
Record Argv : Type :=
  { toVersion : string; skipReactNativeVersionFlag : bool }.

(** How the process ends: the code given to [process.exit] and what
    [console.error] was called with. *)
Record Exit : Type :=
  { exitCode : nat; errors : list (string * error) }.

Section Main.
Variable path_join : string -> string -> string.
Variable getPackages : PackagesFilter -> completion (obj PackageInfo).
Variable setReactNativeVersion : string -> obj string -> completion unit.
Variable writeFile : WriteRequest -> completion unit.

(** [setVersion(toVersion, !!skipReactNativeVersion).then(
       () => process.exit(0),
       error => { console.error(`Failed to set version ${toVersion}\n`, error);
                  process.exit(1); })] *)
Definition main (argv : Argv) : Exit :=
  match outcome (setVersion path_join getPackages setReactNativeVersion
                   writeFile (toVersion argv)
                   (negb (negb (skipReactNativeVersionFlag argv)))) with
  | Normal _ => {| exitCode := 0; errors := [] |}
  | Throw error =>
      {| exitCode := 1;
         errors := [("Failed to set version " ++ toVersion argv ++ nl, error)] |}
  end.
End Main.

(** ** Auxiliary notions for the statements *)

(** One turn of the [for ... in] loop on an ordinary object with the
    properties [o]: a key the object has is overwritten, a key it only
    inherits is added (under [__proto__] nothing happens), any other key is
    passed over. *)
Definition overwrite (newPackageVersions : obj string) (o : obj json)
    (dependency : string) : obj json :=
  match get dependency newPackageVersions with
  | Some v =>
      if has dependency o then set dependency (JStr v) o
      else if inherited dependency && negb (String.eqb dependency "__proto__")
           then (o ++ [(dependency, JStr v)])%list
      else o
  | None => o
  end.

Definition overwrite_all (newPackageVersions : obj string)
    (dependencies : list string) (o : obj json) : obj json :=
  fold_left (overwrite newPackageVersions) dependencies o.

(** One turn of the loop over the dependency fields. *)
Definition field_step (newPackageVersions : obj string) (f : string)
    (packageJson : PackageJson) : PackageJson * completion unit :=
  match get f packageJson with
  | Some deps =>
      if is_nullish (Some deps) then (packageJson, Normal tt)
      else let (deps', r) :=
             for_in (keys newPackageVersions) newPackageVersions deps in
           (set f deps' packageJson, r)
  | None => (packageJson, Normal tt)
  end.

(** A dependency field holds what the Flow type allows: nothing, or an
    object; [null] is let through as the code lets it through. *)
Definition deps_typed (packageJson : PackageJson) : Prop :=
  forall f deps, In f dependencyFields -> get f packageJson = Some deps ->
    deps = JNull \/ exists o, deps = JObj o.

(** The texts of the properties of an object that have one, at
    indentation [indent]. *)
Definition property_texts (indent : string) (o : obj json) : list string :=
  flat_map (fun p : string * json =>
              let (k, v) := p in
              if serialisable v
              then [quote k ++ ": " ++ stringify_at indent v]
              else []) o.

(** What [JSON.parse] gives for the text [JSON.stringify] wrote for a
    value: a property without a text is gone, and an element without a text
    and a number that is not finite are [null].  A value without a text is
    never read back on its own and is left as it is. *)
Fixpoint persist (j : json) : json :=
  match j with
  | JNum text => if String.eqb (number_text text) "null" then JNull else j
  | JArr l =>
      JArr (map (fun x => if serialisable x then persist x else JNull) l)
  | JObj o =>
      JObj (flat_map (fun p : string * json =>
                        let (k, v) := p in
                        if serialisable v then [(k, persist v)] else []) o)
  | _ => j
  end.

Definition persist_object (o : obj json) : obj json :=
  flat_map (fun p : string * json =>
              let (k, v) := p in
              if serialisable v then [(k, persist v)] else []) o.

(** A package as the registry reads it from the file a run wrote. *)
Definition read_back (pkg : PackageInfo) : PackageInfo :=
  {| name := name pkg; path := path pkg;
     packageJson := persist_object (packageJson pkg) |}.

(** The [name] of a manifest is what its type says, a string, or is
    missing. *)
Definition name_typed (packageJson : PackageJson) : Prop :=
  get "name" packageJson = None \/
  exists n, get "name" packageJson = Some (JStr n).

(** A name that is a member of [Object.prototype] is a key of the mapping
    itself. *)
Definition found_own (newPackageVersions : obj string)
    (packageJson : PackageJson) : Prop :=
  forall n, to_property_key (get "name" packageJson) = Normal n ->
            inherited n = true -> has n newPackageVersions = true.

(** An object in which the inner loop finds every value in place: a key
    of the mapping that the object has, or that the loop would add, holds
    the value of the mapping. *)
Definition up_to_date_field (newPackageVersions : obj string)
    (o : obj json) : Prop :=
  forall k v, get k newPackageVersions = Some v ->
    has k o = true \/ (inherited k = true /\ k <> "__proto__") ->
    get k o = Some (JStr v).

(** A manifest that holds the values of the mapping already. *)
Definition up_to_date (newPackageVersions : obj string)
    (packageJson : PackageJson) : Prop :=
  (forall n, to_property_key (get "name" packageJson) = Normal n ->
     match get n newPackageVersions with
     | Some v => get "version" packageJson = Some (JStr v)
     | None => inherited n = false
     end) /\
  (forall f o, In f dependencyFields -> get f packageJson = Some (JObj o) ->
     up_to_date_field newPackageVersions o).

(** The keys the inner loop adds to an object: the keys of the mapping
    that the object only inherits, [__proto__] apart. *)
Definition added_keys (newPackageVersions : obj string) (o : obj json)
    : list string :=
  filter (fun k => inherited k && negb (String.eqb k "__proto__")
                   && negb (has k o))
         (keys newPackageVersions).

(** A mapping none of whose keys is a member of [Object.prototype]. *)
Definition no_inherited (newPackageVersions : obj string) : Prop :=
  forall k, inherited k = true -> get k newPackageVersions = None.

(** A boolean, a number or a string. *)
Definition is_primitive (j : json) : bool :=
  match j with
  | JBool _ | JNum _ | JStr _ => true
  | _ => false
  end.

(** The write a rewrite issues, if it completes. *)
Definition write_of (c : completion WriteRequest) : list WriteRequest :=
  match c with
  | Normal request => [request]
  | Throw _ => []
  end.

(** ** Collaborators used in examples *)

(** [path.join] on two plain POSIX segments. *)
Definition join_posix (a b : string) : string := a ++ "/" ++ b.

(** The example of the specification: [core] depends on [tool-a]. *)
Definition sample_core : PackageJson :=
  [("name", JStr "core"); ("version", JStr "0.1.0");
   ("files", JArr [JStr "dist"]);
   ("devDependencies",
    JObj [("tool-a", JStr "0.1.0"); ("left-pad", JStr "^1.3.0")])].

Definition sample_tool : PackageJson :=
  [("name", JStr "tool-a"); ("version", JStr "0.1.0")].

Definition sample_react_native : PackageJson :=
  [("name", JStr "react-native"); ("version", JStr "1000.0.0")].

Definition sample_mapping : obj string :=
  [("core", "0.2.0"); ("tool-a", "0.2.0")].

(** A manifest without a [name]. *)
Definition sample_nameless : PackageJson :=
  [("version", JStr "0.1.0"); ("dependencies", JObj [("core", JStr "0.1.0")])].

Definition sample_packages : obj PackageInfo :=
  [("core", {| name := "core"; path := "packages/core";
               packageJson := sample_core |});
   ("tool-a", {| name := "tool-a"; path := "packages/tool-a";
                 packageJson := sample_tool |});
   ("react-native", {| name := "react-native"; path := "packages/react-native";
                       packageJson := sample_react_native |})].

(** The example as a run for version ["0.2.0"] leaves it on disk. *)
Definition sample_packages_after : obj PackageInfo :=
  [("core", {| name := "core"; path := "packages/core";
               packageJson :=
                 [("name", JStr "core"); ("version", JStr "0.2.0");
                  ("files", JArr [JStr "dist"]);
                  ("devDependencies",
                   JObj [("tool-a", JStr "0.2.0");
                         ("left-pad", JStr "^1.3.0")])] |});
   ("tool-a", {| name := "tool-a"; path := "packages/tool-a";
                 packageJson :=
                   [("name", JStr "tool-a"); ("version", JStr "0.2.0")] |});
   ("react-native", {| name := "react-native"; path := "packages/react-native";
                       packageJson :=
                         [("name", JStr "react-native");
                          ("version", JStr "0.2.0")] |})].

Definition sample_registry_after (filter : PackagesFilter)
    : completion (obj PackageInfo) := Normal sample_packages_after.

(** A registry that resolves to the example, and collaborators that
    resolve. *)
Definition sample_registry (filter : PackagesFilter)
    : completion (obj PackageInfo) := Normal sample_packages.

Definition setter_resolves (version : string) (mapping : obj string)
    : completion unit := Normal tt.

Definition write_resolves (request : WriteRequest) : completion unit :=
  Normal tt.

(** A file system that refuses every write. *)
Definition write_rejects (request : WriteRequest) : completion unit :=
  Throw (Rejected "EACCES").

(** The mapping of the example with its keys in the other order. *)
Definition sample_mapping_reversed : obj string :=
  [("tool-a", "0.2.0"); ("core", "0.2.0")].

(** A manifest whose [dependencies] is a string. *)
Definition sample_untyped : PackageJson :=
  [("name", JStr "core"); ("version", JStr "0.1.0");
   ("dependencies", JStr "none");
   ("devDependencies", JObj [("tool-a", JStr "0.1.0")])].

(** A manifest whose [dependencies] is an array, and a mapping for the
    packages ["2"] and ["length"]. *)
Definition sample_array : PackageJson :=
  [("name", JStr "app");
   ("dependencies", JArr [JStr "a"; JStr "b"; JStr "c"])].

Definition sample_array_mapping : obj string := [("2", "1"); ("length", "1")].

(** A manifest without dependencies, and a mapping for a package named
    [constructor]. *)
Definition sample_app : PackageJson :=
  [("name", JStr "app"); ("version", JStr "0.1.0"); ("dependencies", JObj [])].

Definition sample_constructor_mapping : obj string :=
  [("constructor", "1.0.0")].

(** The manifest of a package named [constructor]. *)
Definition sample_constructor : PackageJson :=
  [("name", JStr "constructor"); ("version", JStr "0.1.0")].

(** A registry with a package named [constructor]. *)
Definition sample_constructor_packages : obj PackageInfo :=
  [("app", {| name := "app"; path := "packages/app";
              packageJson := sample_app |});
   ("constructor", {| name := "constructor"; path := "packages/constructor";
                      packageJson := sample_constructor |})].

Definition sample_constructor_registry (filter : PackagesFilter)
    : completion (obj PackageInfo) := Normal sample_constructor_packages.

(** A registry with the packages ["3"] and ["length"], the first with an
    array for [dependencies], and the registry as it is read after a run for
    version ["4"]. *)
Definition sample_numbered_packages : obj PackageInfo :=
  [("3", {| name := "3"; path := "packages/3";
            packageJson :=
              [("name", JStr "3");
               ("dependencies", JArr [JStr "a"; JStr "b"])] |});
   ("length", {| name := "length"; path := "packages/length";
                 packageJson := [("name", JStr "length")] |})].

Definition sample_numbered_packages_after : obj PackageInfo :=
  [("3", {| name := "3"; path := "packages/3";
            packageJson :=
              [("name", JStr "3");
               ("dependencies", JArr [JStr "a"; JStr "b"; JNull; JNull]);
               ("version", JStr "4")] |});
   ("length", {| name := "length"; path := "packages/length";
                 packageJson :=
                   [("name", JStr "length"); ("version", JStr "4")] |})].

Definition sample_numbered_registry (filter : PackagesFilter)
    : completion (obj PackageInfo) := Normal sample_numbered_packages.

Definition sample_numbered_registry_after (filter : PackagesFilter)
    : completion (obj PackageInfo) := Normal sample_numbered_packages_after.

(** ** Reading a trace *)

(** The mapping an event was given, if it was given one. *)
Definition mapping_of (e : event) : option (obj string) :=
  match e with
  | CallSetReactNativeVersion _ mapping => Some mapping
  | CallUpdatePackageJson _ mapping => Some mapping
  | CallWriteFile _ => None
  end.

(** The files written, in the order of the calls. *)
Fixpoint writes (t : list event) : list WriteRequest :=
  match t with
  | [] => []
  | CallWriteFile request :: rest => request :: writes rest
  | _ :: rest => writes rest
  end.

(** The packages handed to [updatePackageJson], in the order of the
    calls. *)
Fixpoint calls (t : list event) : list PackageInfo :=
  match t with
  | [] => []
  | CallUpdatePackageJson pkg _ :: rest => pkg :: calls rest
  | _ :: rest => calls rest
  end.

(** The files on disk: the text under each file name. *)
Definition disk : Type := string -> option string.

(** A write that is fulfilled replaces the whole text of its file; a
    write that is rejected is taken to leave the file as it was. *)
Definition commit (writeFile : WriteRequest -> completion unit) (d : disk)
    (request : WriteRequest) : disk :=
  match writeFile request with
  | Normal _ =>
      fun f => if String.eqb f (file request) then Some (data request)
               else d f
  | Throw _ => d
  end.

Definition commit_all (writeFile : WriteRequest -> completion unit)
    (requests : list WriteRequest) (d : disk) : disk :=
  fold_left (commit writeFile) requests d.

(** The text the last write to [f] among [requests] leaves. *)
Fixpoint last_write (f : string) (requests : list WriteRequest) : option string :=
  match requests with
  | [] => None
  | request :: rest =>
      match last_write f rest with
      | Some text => Some text
      | None => if String.eqb f (file request) then Some (data request) else None
      end
  end.

(** The filter [setVersion] gives the registry. *)
Definition public_packages : PackagesFilter :=
  {| includePrivate := false; includeReactNative := true |}.

(** * Properties *)

(** ** The scenarios of the specification *)

Example scenario_mapping :
  newPackageVersions sample_packages "0.2.0"
  = [("core", "0.2.0"); ("tool-a", "0.2.0"); ("react-native", "0.2.0")].
Proof. reflexivity. Qed.

Example scenario_core :
  fst (updatePackageJson join_posix "packages/core" sample_core
         (newPackageVersions sample_packages "0.2.0"))
  = [("name", JStr "core"); ("version", JStr "0.2.0");
     ("files", JArr [JStr "dist"]);
     ("devDependencies",
      JObj [("tool-a", JStr "0.2.0"); ("left-pad", JStr "^1.3.0")])].
Proof. reflexivity. Qed.

Example scenario_skip :
  hd_error (trace (setVersion join_posix sample_registry setter_resolves
                     write_resolves "0.2.0" true))
  = Some (CallSetReactNativeVersion "1000.0.0"
            [("core", "0.2.0"); ("tool-a", "0.2.0");
             ("react-native", "0.2.0")]).
Proof. reflexivity. Qed.

Example scenario_files :
  map file (writes (trace (setVersion join_posix sample_registry
                             setter_resolves write_resolves "0.2.0" false)))
  = ["packages/core/package.json"; "packages/tool-a/package.json"].
Proof. reflexivity. Qed.

(** [in] applied to a string throws, after the version was set. *)
Example scenario_primitive_field :
  updatePackageJson join_posix "packages/x"
    [("name", JStr "core"); ("version", JStr "0.1.0");
     ("dependencies", JStr "none")] sample_mapping
  = ([("name", JStr "core"); ("version", JStr "0.2.0");
      ("dependencies", JStr "none")], Throw TypeError).
Proof. reflexivity. Qed.

(** [null] in a dependency field is skipped like a missing field. *)
Example scenario_null_field :
  fst (updatePackageJson join_posix "packages/x"
         [("name", JStr "x"); ("dependencies", JNull)] sample_mapping)
  = [("name", JStr "x"); ("dependencies", JNull)].
Proof. reflexivity. Qed.

(** A new [version] comes after the other properties. *)
Example scenario_new_version :
  fst (updatePackageJson join_posix "packages/tool-a"
         [("name", JStr "tool-a"); ("private", JBool false)] sample_mapping)
  = [("name", JStr "tool-a"); ("private", JBool false);
     ("version", JStr "0.2.0")].
Proof. reflexivity. Qed.

Example scenario_text :
  stringify [("name", JStr "a"); ("deps", JObj [("b", JNum "1")]);
             ("files", JArr []); ("none", JObj [])]
  = "{" ++ nl
    ++ "  " ++ quote "name" ++ ": " ++ quote "a" ++ "," ++ nl
    ++ "  " ++ quote "deps" ++ ": {" ++ nl
    ++ "    " ++ quote "b" ++ ": 1" ++ nl
    ++ "  }," ++ nl
    ++ "  " ++ quote "files" ++ ": []," ++ nl
    ++ "  " ++ quote "none" ++ ": {}" ++ nl
    ++ "}".
Proof. reflexivity. Qed.

(** A name the mapping only inherits: [version] becomes a function and
    is left out of the text. *)
Example scenario_inherited_name :
  updatePackageJson join_posix "packages/x" sample_constructor []
  = ([("name", JStr "constructor"); ("version", JFunction "Object")],
     Normal {| file := "packages/x/package.json";
               data := "{" ++ nl ++ "  " ++ quote "name" ++ ": "
                       ++ quote "constructor" ++ nl ++ "}" ++ nl |}).
Proof. reflexivity. Qed.

(** A key the field only inherits is added to it. *)
Example scenario_inherited_key :
  fst (updatePackageJson join_posix "packages/x" sample_app
         sample_constructor_mapping)
  = [("name", JStr "app"); ("version", JStr "0.1.0");
     ("dependencies", JObj [("constructor", JStr "1.0.0")])].
Proof. reflexivity. Qed.

(** An array is cut by [length]. *)
Example scenario_array_length :
  fst (updatePackageJson join_posix "packages/x" sample_array
         sample_array_mapping)
  = [("name", JStr "app"); ("dependencies", JArr [JStr "a"])].
Proof. vm_compute. reflexivity. Qed.

(** A version that is no array length throws a [RangeError]. *)
Example scenario_array_range_error :
  snd (updatePackageJson join_posix "packages/x" sample_array
         [("length", "0.2.0")])
  = Throw RangeError.
Proof. vm_compute. reflexivity. Qed.

(** A name that has no primitive value throws a [TypeError]. *)
Example scenario_name_object :
  updatePackageJson join_posix "packages/x"
    [("name", JObj [("toString", JNull)])] sample_mapping
  = ([("name", JObj [("toString", JNull)])], Throw TypeError).
Proof. reflexivity. Qed.

(** ** Objects *)

Section ObjFacts.
Context {A : Type}.
Implicit Types (o : obj A) (k : string) (v : A).

Lemma get_set_same k v o : get k (set k v o) = Some v.
Proof.
  induction o as [|[k' v'] o IH]; simpl.
  - now rewrite String.eqb_refl.
  - destruct (String.eqb k k') eqn:E; simpl; rewrite E; auto.
Qed.

Lemma get_set_other k k' v o : k <> k' -> get k' (set k v o) = get k' o.
Proof.
  intros Hne. induction o as [|[k0 v0] o IH]; simpl.
  - destruct (String.eqb_spec k' k); congruence.
  - destruct (String.eqb_spec k k0) as [->|]; simpl.
    + destruct (String.eqb_spec k' k0); congruence.
    + now rewrite IH.
Qed.

Lemma get_set k k' v o :
  get k' (set k v o) = if String.eqb k' k then Some v else get k' o.
Proof.
  destruct (String.eqb_spec k' k) as [->|Hne].
  - apply get_set_same.
  - apply get_set_other; congruence.
Qed.

Lemma has_In k o : has k o = true <-> In k (keys o).
Proof.
  unfold has. induction o as [|[k' v'] o IH]; simpl.
  - split; [discriminate | tauto].
  - destruct (String.eqb_spec k k') as [->|Hne].
    + split; auto.
    + rewrite IH. split; [tauto | intros [?|?]; congruence].
Qed.

Lemma get_None_In k o : get k o = None <-> ~ In k (keys o).
Proof.
  rewrite <- has_In. unfold has. destruct (get k o); split;
    congruence || (intros H; exfalso; now apply H).
Qed.

Lemma get_Some_has k v o : get k o = Some v -> has k o = true.
Proof. unfold has. now intros ->. Qed.

Lemma keys_set_has k v o : has k o = true -> keys (set k v o) = keys o.
Proof.
  unfold has. induction o as [|[k' v'] o IH]; simpl; [discriminate|].
  destruct (String.eqb_spec k k') as [->|Hne]; simpl; [reflexivity|].
  intros H. now rewrite IH.
Qed.

Lemma set_new k v o : get k o = None -> set k v o = (o ++ [(k, v)])%list.
Proof.
  induction o as [|[k' v'] o IH]; simpl; [reflexivity|].
  destruct (String.eqb k k'); [discriminate|]. intros H. now rewrite IH.
Qed.

Lemma set_same_value k v o : get k o = Some v -> set k v o = o.
Proof.
  induction o as [|[k' v'] o IH]; simpl; [discriminate|].
  destruct (String.eqb k k'); intros H.
  - congruence.
  - now rewrite IH.
Qed.

Lemma has_set k k' v o : has k' o = true -> has k' (set k v o) = true.
Proof.
  unfold has. rewrite get_set. now destruct (String.eqb k' k).
Qed.

(** An object with unique keys is determined by the order of its keys
    and the value under each of them. *)
Lemma obj_ext o o' :
  NoDup (keys o) -> keys o' = keys o ->
  (forall k, get k o' = get k o) -> o' = o.
Proof.
  revert o'. induction o as [|[k v] o IH]; intros [|[k' v'] o'] Hnd Hk Hg;
    simpl in *; try discriminate; [reflexivity|].
  injection Hk as -> Hk. inversion Hnd as [|? ? Hnin Hnd']; subst.
  pose proof (Hg k) as Hv. simpl in Hv. rewrite String.eqb_refl in Hv.
  injection Hv as ->. f_equal. apply IH; auto.
  intros k0. specialize (Hg k0). simpl in Hg.
  destruct (String.eqb_spec k0 k) as [Heq|]; [subst k0|assumption].
  transitivity (@None A); [|symmetry]; apply get_None_In; congruence.
Qed.
End ObjFacts.

Lemma get_app_present {A} (o o' : obj A) k :
  has k o = true -> get k (o ++ o')%list = get k o.
Proof.
  unfold has. induction o as [|[k' v'] o IH]; simpl; [discriminate|].
  now destruct (String.eqb k k').
Qed.

Lemma get_app_absent {A} (o o' : obj A) k :
  get k o = None -> get k (o ++ o')%list = get k o'.
Proof.
  induction o as [|[k' v'] o IH]; simpl; [reflexivity|].
  now destruct (String.eqb k k').
Qed.

Lemma get_app_other {A} (o : obj A) k k' (v : A) :
  k' <> k -> get k' (o ++ [(k, v)])%list = get k' o.
Proof.
  intros Hne. induction o as [|[k0 v0] o IH]; simpl.
  - destruct (String.eqb_spec k' k); congruence.
  - now destruct (String.eqb k' k0).
Qed.

Lemma has_false_get {A} (o : obj A) k : has k o = false -> get k o = None.
Proof. unfold has. now destruct (get k o). Qed.

Lemma keys_app {A} (o o' : obj A) : keys (o ++ o')%list = (keys o ++ keys o')%list.
Proof. unfold keys. apply map_app. Qed.

(** ** The [for ... in] loop on an ordinary object *)

Section Overwrite.
Variable npv : obj string.
Implicit Types (o : obj json) (k : string) (ks : list string).

(** The keys the loop may add: those the mapping has and the object only
    inherits. *)
Lemma keys_overwrite o k :
  keys (overwrite npv o k) = keys o \/
  (keys (overwrite npv o k) = (keys o ++ [k])%list /\
   has k o = false /\ inherited k = true /\ k <> "__proto__" /\
   In k (keys npv)).
Proof.
  unfold overwrite. destruct (get k npv) as [v|] eqn:Hv; [|now left].
  destruct (has k o) eqn:Hh; [left; now apply keys_set_has|].
  destruct (inherited k) eqn:Hi; [|now left]. simpl.
  destruct (String.eqb_spec k "__proto__") as [|Hp]; [now left|]. simpl.
  right. rewrite keys_app. repeat split; [assumption|].
  apply has_In. eapply get_Some_has; eassumption.
Qed.

Lemma has_overwrite o k k' :
  has k' o = true -> has k' (overwrite npv o k) = true.
Proof.
  intros H. apply has_In. apply has_In in H.
  destruct (keys_overwrite o k) as [->|[-> _]]; [assumption|].
  apply in_or_app. now left.
Qed.

Lemma has_overwrite_all ks o k' :
  has k' o = true -> has k' (overwrite_all npv ks o) = true.
Proof.
  revert o. unfold overwrite_all.
  induction ks as [|k ks IH]; intros o H; [assumption|].
  simpl. apply IH. now apply has_overwrite.
Qed.

(** The loop keeps the keys of the object in their order and adds, after
    them, keys of the mapping that the object only inherits. *)
Lemma keys_overwrite_all ks o :
  exists added,
    keys (overwrite_all npv ks o) = (keys o ++ added)%list /\
    forall k, In k added ->
      In k ks /\ inherited k = true /\ k <> "__proto__" /\
      ~ In k (keys o) /\ In k (keys npv).
Proof.
  revert o. unfold overwrite_all.
  induction ks as [|k ks IH]; intros o; simpl.
  - exists []. rewrite app_nil_r. split; [reflexivity|intros k []].
  - destruct (IH (overwrite npv o k)) as (added & Hk & Hadded).
    destruct (keys_overwrite o k) as [Heq|(Heq & Hh & Hi & Hp & Hm)];
      rewrite Heq in Hk.
    + exists added. split; [assumption|]. intros k' Hk'.
      destruct (Hadded k' Hk') as (? & ? & ? & Hn & ?). rewrite Heq in Hn. auto.
    + exists (k :: added). rewrite <- app_assoc in Hk. split; [assumption|].
      intros k' [<-|Hk'].
      * repeat split; auto. intros Hin. apply has_In in Hin. congruence.
      * destruct (Hadded k' Hk') as (? & ? & ? & Hn & ?). rewrite Heq in Hn.
        repeat split; auto. intros Hin. apply Hn, in_or_app. now left.
Qed.

Lemma get_overwrite_other o k k' :
  k' <> k -> get k' (overwrite npv o k) = get k' o.
Proof.
  intros Hne. unfold overwrite. destruct (get k npv); [|reflexivity].
  destruct (has k o); [apply get_set_other; congruence|].
  destruct (inherited k && negb (String.eqb k "__proto__")); [|reflexivity].
  now apply get_app_other.
Qed.

Lemma get_overwrite_all_frame ks o k' :
  ~ In k' ks -> get k' (overwrite_all npv ks o) = get k' o.
Proof.
  revert o. induction ks as [|k ks IH]; intros o Hnin; [reflexivity|].
  unfold overwrite_all in *. simpl. rewrite IH by (simpl in Hnin; tauto).
  apply get_overwrite_other. simpl in Hnin. intros ->. tauto.
Qed.

Lemma overwrite_keeps o k k' v :
  get k npv = Some v -> get k o = Some (JStr v) ->
  get k (overwrite npv o k') = Some (JStr v).
Proof.
  intros Hv Ho. destruct (string_dec k k') as [<-|Hne].
  - unfold overwrite. rewrite Hv, (get_Some_has _ _ _ Ho). apply get_set_same.
  - now rewrite get_overwrite_other.
Qed.

Lemma overwrite_all_keeps ks o k v :
  get k npv = Some v -> get k o = Some (JStr v) ->
  get k (overwrite_all npv ks o) = Some (JStr v).
Proof.
  intros Hv. revert o. induction ks as [|k' ks IH]; intros o Ho; [assumption|].
  unfold overwrite_all in *. simpl. apply IH. now apply overwrite_keeps.
Qed.

(** A key of the mapping that the object has, or inherits under another
    name than [__proto__], holds the string of the mapping after the
    loop. *)
Lemma overwrite_all_hit ks o k v :
  In k ks -> get k npv = Some v ->
  has k o = true \/ (inherited k = true /\ k <> "__proto__") ->
  get k (overwrite_all npv ks o) = Some (JStr v).
Proof.
  intros Hin Hv. revert o. induction ks as [|k' ks IH]; intros o Ho;
    [contradiction|].
  unfold overwrite_all in *. simpl.
  destruct (string_dec k' k) as [->|Hne].
  - apply (overwrite_all_keeps ks); [assumption|].
    unfold overwrite. rewrite Hv. destruct (has k o) eqn:Hh.
    + apply get_set_same.
    + destruct Ho as [?|[-> Hp]]; [discriminate|]. simpl.
      apply String.eqb_neq in Hp. rewrite Hp. simpl.
      rewrite get_app_absent by now apply has_false_get.
      simpl. now rewrite String.eqb_refl.
  - destruct Hin as [?|Hin]; [contradiction|]. apply IH; [assumption|].
    destruct Ho as [Ho|Ho]; [left; now apply has_overwrite|now right].
Qed.

(** A loop that finds every value in place changes nothing. *)
Lemma overwrite_all_noop ks o :
  (forall k v, In k ks -> get k npv = Some v ->
     has k o = true \/ (inherited k = true /\ k <> "__proto__") ->
     get k o = Some (JStr v)) ->
  overwrite_all npv ks o = o.
Proof.
  induction ks as [|k ks IH]; intros H; [reflexivity|].
  unfold overwrite_all in *. simpl.
  assert (Hk : overwrite npv o k = o).
  { unfold overwrite. destruct (get k npv) as [v|] eqn:Hv; [|reflexivity].
    destruct (has k o) eqn:Hh.
    - apply set_same_value. apply H; simpl; auto.
    - destruct (inherited k) eqn:Hi; [|reflexivity]. simpl.
      destruct (String.eqb_spec k "__proto__") as [|Hp]; [reflexivity|].
      simpl. assert (Hg : get k o = Some (JStr v)) by (apply H; simpl; auto).
      apply get_Some_has in Hg. congruence. }
  rewrite Hk. apply IH. intros k' v' Hin. apply H. now right.
Qed.

Lemma overwrite_all_idem ks o :
  overwrite_all npv ks (overwrite_all npv ks o) = overwrite_all npv ks o.
Proof.
  apply overwrite_all_noop. intros k v Hin Hv Hh.
  apply overwrite_all_hit; [assumption..|].
  destruct Hh as [Hh|Hh]; [|now right].
  destruct (has k o) eqn:Ho; [now left|]. right.
  destruct (keys_overwrite_all ks o) as (added & Hk & Hadded).
  apply has_In in Hh. rewrite Hk in Hh. apply in_app_or in Hh.
  destruct Hh as [Hh|Hh]; [apply has_In in Hh; congruence|].
  destruct (Hadded k Hh) as (_ & Hi & Hp & _). auto.
Qed.
End Overwrite.

(** ** The inner loop *)

Section ForIn.
Variable npv : obj string.

(** On an ordinary object the loop never throws. *)
Lemma for_in_JObj ks o :
  for_in ks npv (JObj o) = (JObj (overwrite_all npv ks o), Normal tt).
Proof.
  revert o. unfold overwrite_all.
  induction ks as [|k ks IH]; intros o; [reflexivity|].
  simpl. unfold overwrite, in_object.
  destruct (get k npv) as [v|] eqn:Hv.
  - destruct (has k o) eqn:Hh; simpl; [apply IH|].
    destruct (inherited k) eqn:Hi; simpl; [|apply IH].
    destruct (String.eqb k "__proto__"); simpl; apply IH.
  - destruct (has k o || inherited k); apply IH.
Qed.

(** On a primitive the first turn throws. *)
Lemma for_in_primitive ks d :
  match d with JBool _ | JNum _ | JStr _ => True | _ => False end ->
  for_in ks npv d
  = (d, match ks with [] => Normal tt | _ => Throw TypeError end).
Proof. destruct ks; destruct d; simpl; intros []; reflexivity. Qed.

Lemma has_property_errors k d e :
  has_property k d = Throw e -> e = TypeError.
Proof. destruct d; simpl; congruence. Qed.

Lemma assign_errors k v d e :
  assign k v d = Throw e -> e = TypeError \/ e = RangeError.
Proof.
  destruct d; simpl; try (intros [= <-]; now left); try discriminate.
  - destruct (array_index k _); [discriminate|].
    destruct (String.eqb k "length"); [|discriminate].
    destruct (to_array_length v); [discriminate|]. intros [= <-]. now right.
  - destruct (read_only_in_function k fname); [|discriminate].
    intros [= <-]. now left.
Qed.

(** The loop throws a [TypeError] or a [RangeError], nothing else. *)
Lemma for_in_errors ks d e :
  snd (for_in ks npv d) = Throw e -> e = TypeError \/ e = RangeError.
Proof.
  revert d. induction ks as [|k ks IH]; intros d; [discriminate|]. simpl.
  destruct (has_property k d) as [[]|e'] eqn:Hh.
  - destruct (get k npv) as [v|]; [|apply IH].
    destruct (assign k v d) as [d'|e'] eqn:Ha; [apply IH|].
    simpl. intros [= <-]. eapply assign_errors; eassumption.
  - apply IH.
  - simpl. intros [= <-]. left. eapply has_property_errors; eassumption.
Qed.
End ForIn.

(** ** The loop over the dependency fields *)

Section ForOf.
Variable npv : obj string.
Implicit Types (pj : PackageJson) (fs : list string).

Lemma for_of_cons f fs pj :
  for_of (f :: fs) npv pj
  = match field_step npv f pj with
    | (pj1, Throw e) => (pj1, Throw e)
    | (pj1, Normal _) => for_of fs npv pj1
    end.
Proof.
  cbn [for_of]. unfold field_step. destruct (get f pj) as [d|]; [|reflexivity].
  destruct (is_nullish (Some d)); [reflexivity|].
  now destruct (for_in (keys npv) npv d) as [d' [u|e]].
Qed.

(** A turn changes the value of its field and nothing else. *)
Lemma field_step_shape f pj :
  fst (field_step npv f pj) = pj \/
  exists d d', get f pj = Some d /\ is_nullish (Some d) = false /\
    for_in (keys npv) npv d = (d', snd (field_step npv f pj)) /\
    fst (field_step npv f pj) = set f d' pj.
Proof.
  unfold field_step. destruct (get f pj) as [d|]; [|now left].
  destruct (is_nullish (Some d)) eqn:Hn; [now left|].
  destruct (for_in (keys npv) npv d) as [d' r] eqn:Hin.
  right. exists d, d'. auto.
Qed.

Lemma field_step_keys f pj : keys (fst (field_step npv f pj)) = keys pj.
Proof.
  destruct (field_step_shape f pj) as [->|(d & d' & Hd & _ & _ & ->)];
    [reflexivity|].
  apply keys_set_has. eapply get_Some_has; eassumption.
Qed.

Lemma field_step_frame f g pj :
  g <> f -> get g (fst (field_step npv f pj)) = get g pj.
Proof.
  intros Hne.
  destruct (field_step_shape f pj) as [->|(d & d' & _ & _ & _ & ->)];
    [reflexivity|].
  apply get_set_other. congruence.
Qed.

Lemma for_of_keys fs pj : keys (fst (for_of fs npv pj)) = keys pj.
Proof.
  revert pj. induction fs as [|f fs IH]; intros pj; [reflexivity|].
  rewrite for_of_cons. pose proof (field_step_keys f pj) as Hk.
  destruct (field_step npv f pj) as [pj1 [u|e]]; simpl in *; [|assumption].
  now rewrite IH.
Qed.

Lemma for_of_frame fs g pj :
  ~ In g fs -> get g (fst (for_of fs npv pj)) = get g pj.
Proof.
  revert pj. induction fs as [|f fs IH]; intros pj Hg; [reflexivity|].
  rewrite for_of_cons.
  pose proof (field_step_frame f g pj) as Hf.
  destruct (field_step npv f pj) as [pj1 [u|e]]; simpl in *.
  - rewrite IH by tauto. apply Hf. intros ->. tauto.
  - apply Hf. intros ->. tauto.
Qed.

(** A turn on a field that holds an ordinary object. *)
Lemma field_step_JObj f pj o :
  get f pj = Some (JObj o) ->
  field_step npv f pj
  = (set f (JObj (overwrite_all npv (keys npv) o)) pj, Normal tt).
Proof. unfold field_step. intros ->. simpl. now rewrite for_in_JObj. Qed.

(** A turn on a field that is missing or [null]. *)
Lemma field_step_nullish f pj :
  is_nullish (get f pj) = true -> field_step npv f pj = (pj, Normal tt).
Proof.
  unfold field_step. destruct (get f pj) as [d|]; [|reflexivity].
  now intros ->.
Qed.

(** When the loop completes, a field that held an ordinary object holds
    what the inner loop made of it. *)
Lemma for_of_JObj fs pj pj' u f o :
  NoDup fs -> for_of fs npv pj = (pj', Normal u) -> In f fs ->
  get f pj = Some (JObj o) ->
  get f pj' = Some (JObj (overwrite_all npv (keys npv) o)).
Proof.
  intros Hnd. revert pj. induction Hnd as [|f0 fs Hnin Hnd IH];
    intros pj H Hf Ho; [contradiction|].
  rewrite for_of_cons in H. destruct (string_dec f f0) as [->|Hne].
  - rewrite (field_step_JObj _ _ _ Ho) in H.
    change pj' with (fst (pj', Normal u)). rewrite <- H.
    rewrite for_of_frame by assumption. apply get_set_same.
  - destruct Hf as [?|Hf]; [congruence|].
    pose proof (field_step_frame f0 f pj Hne) as Hfr.
    destruct (field_step npv f0 pj) as [pj1 [u1|e]]; [|discriminate].
    apply (IH pj1); [assumption..|]. simpl in Hfr. congruence.
Qed.

(** A turn on a typed field completes and leaves the fields typed. *)
Lemma field_step_typed f pj :
  (forall deps, get f pj = Some deps ->
                deps = JNull \/ exists o, deps = JObj o) ->
  exists pj1, field_step npv f pj = (pj1, Normal tt) /\
    forall g deps, get g pj1 = Some deps ->
      (g <> f /\ get g pj = Some deps) \/ (g = f /\
        (deps = JNull \/ exists o, deps = JObj o)).
Proof.
  intros H. destruct (get f pj) as [d|] eqn:Hf.
  - destruct (H d eq_refl) as [Hd|[o Hd]]; subst d.
    + exists pj. split; [apply field_step_nullish; now rewrite Hf|].
      intros g deps Hg. destruct (string_dec g f) as [Heq|Hne]; [|auto].
      subst g. right. split; [reflexivity|]. left. congruence.
    + exists (set f (JObj (overwrite_all npv (keys npv) o)) pj).
      split; [apply field_step_JObj; exact Hf|].
      intros g deps Hg. destruct (string_dec g f) as [Heq|Hne].
      * subst g. rewrite get_set_same in Hg. injection Hg as <-.
        right. split; [reflexivity|]. right. eauto.
      * rewrite get_set_other in Hg by congruence. auto.
  - exists pj. split; [apply field_step_nullish; now rewrite Hf|].
    intros g deps Hg. destruct (string_dec g f) as [Heq|Hne]; [|auto].
    subst g. congruence.
Qed.

(** With typed fields the loop completes. *)
Lemma for_of_completes fs pj :
  (forall f deps, In f fs -> get f pj = Some deps ->
                  deps = JNull \/ exists o, deps = JObj o) ->
  exists pj', for_of fs npv pj = (pj', Normal tt).
Proof.
  revert pj. induction fs as [|f fs IH]; intros pj H; [now exists pj|].
  rewrite for_of_cons.
  destruct (field_step_typed f pj) as (pj1 & -> & Hfr).
  { intros deps. apply H. now left. }
  apply IH. intros g deps Hg Hd.
  destruct (Hfr g deps Hd) as [[_ Hold]|[_ Hnew]]; [|exact Hnew].
  apply (H g deps); [now right|exact Hold].
Qed.

(** The loop throws a [TypeError] or a [RangeError], nothing else. *)
Lemma for_of_errors fs pj e :
  snd (for_of fs npv pj) = Throw e -> e = TypeError \/ e = RangeError.
Proof.
  revert pj. induction fs as [|f fs IH]; intros pj; [discriminate|].
  rewrite for_of_cons.
  destruct (field_step_shape f pj) as [Heq|(d & d' & _ & _ & Hin & _)].
  - destruct (field_step npv f pj) as [pj1 [u|e']] eqn:Hs; [apply IH|].
    unfold field_step in Hs. destruct (get f pj) as [d|]; [|discriminate].
    destruct (is_nullish (Some d)); [discriminate|].
    destruct (for_in (keys npv) npv d) as [d' r] eqn:Hin.
    injection Hs as _ ->. simpl. intros [= <-].
    apply (for_in_errors npv (keys npv) d). now rewrite Hin.
  - destruct (field_step npv f pj) as [pj1 [u|e']]; [apply IH|].
    simpl in *. intros [= <-].
    apply (for_in_errors npv (keys npv) d). now rewrite Hin.
Qed.
End ForOf.

(** ** Values inside values *)

(** Induction on a value, with the property at hand for every element of
    an array and every property value of an object. *)
Lemma json_nested_ind (P : json -> Prop) :
  P JNull -> (forall b, P (JBool b)) -> (forall t, P (JNum t)) ->
  (forall s, P (JStr s)) ->
  (forall l, Forall P l -> P (JArr l)) ->
  (forall o, Forall P (values o) -> P (JObj o)) ->
  P JUndefined -> (forall f, P (JFunction f)) ->
  forall j, P j.
Proof.
  intros Hnull Hbool Hnum Hstr Harr Hobj Hund Hfun.
  refine (fix IH (j : json) : P j :=
            match j with
            | JNull => Hnull
            | JBool b => Hbool b
            | JNum t => Hnum t
            | JStr s => Hstr s
            | JArr l =>
                Harr l ((fix elements (l : list json) : Forall P l :=
                           match l with
                           | [] => Forall_nil P
                           | x :: l => Forall_cons x (IH x) (elements l)
                           end) l)
            | JObj o =>
                Hobj o ((fix properties (o : obj json)
                           : Forall P (values o) :=
                           match o with
                           | [] => Forall_nil P
                           | (k, x) :: o =>
                               Forall_cons x (IH x) (properties o)
                           end) o)
            | JUndefined => Hund
            | JFunction f => Hfun f
            end).
Qed.

Lemma join_cons s part parts :
  join (Normal s :: part :: parts)
  = match join (part :: parts) with
    | Normal t => Normal (s ++ "," ++ t)
    | Throw e => Throw e
    end.
Proof. reflexivity. Qed.

Lemma join_errors parts e :
  Forall (fun part => forall e', part = Throw e' -> e' = TypeError) parts ->
  join parts = Throw e -> e = TypeError.
Proof.
  intros H. revert e.
  induction H as [|part parts Hpart Hparts IH]; intros e;
    [intros H; discriminate H|].
  destruct part as [s|e']; destruct parts as [|part' parts'].
  - intros H. discriminate H.
  - rewrite join_cons.
    destruct (join (part' :: parts')) as [t|e'] eqn:Hj.
    + intros H. discriminate H.
    + intros H. apply IH. congruence.
  - apply Hpart.
  - apply Hpart.
Qed.

(** [ToString] throws a [TypeError] and nothing else. *)
Lemma to_string_errors j e : to_string j = Throw e -> e = TypeError.
Proof.
  revert e. induction j as [|b|t|s|l IH|o _| |f] using json_nested_ind;
    intros e; simpl; try discriminate.
  - now destruct b.
  - apply join_errors. induction IH as [|x l Hx _ IHl]; constructor;
      [|exact IHl].
    intros e'. destruct x; try discriminate; apply Hx.
  - destruct (has "toString" o); [|discriminate]. now intros [= <-].
Qed.

(** ** The rewriter *)

Section Rewriter.
Variable path_join : string -> string -> string.
Variable npv : obj string.
Implicit Types (pj : PackageJson) (p : string).

Lemma dependencyField_not_version g : In g dependencyFields -> g <> "version".
Proof. intros [<-|[<-|[]]]; discriminate. Qed.

Lemma dependencyField_not_name g : In g dependencyFields -> g <> "name".
Proof. intros [<-|[<-|[]]]; discriminate. Qed.

Lemma dependencyFields_NoDup : NoDup dependencyFields.
Proof.
  constructor; [|constructor; [|constructor]]; simpl; [|tauto].
  intros [H|[]]. discriminate.
Qed.

Lemma set_own_version_errors pj e :
  set_own_version npv pj = Throw e -> e = TypeError.
Proof.
  unfold set_own_version.
  destruct (to_property_key (get "name" pj)) as [n|e'] eqn:Hn; [discriminate|].
  intros [= <-]. destruct (get "name" pj) as [j|]; [|discriminate].
  eapply to_string_errors; eassumption.
Qed.

(** What the first statement makes of [version]. *)
Lemma set_own_version_spec pj pj1 :
  set_own_version npv pj = Normal pj1 ->
  exists n, to_property_key (get "name" pj) = Normal n /\
    match get n npv with
    | Some v => pj1 = set "version" (JStr v) pj
    | None => if inherited n
              then pj1 = set "version" (Object_prototype_get n) pj
              else pj1 = pj
    end.
Proof.
  unfold set_own_version.
  destruct (to_property_key (get "name" pj)) as [n|e]; [|discriminate].
  intros [= <-]. exists n. split; [reflexivity|].
  destruct (get n npv); [reflexivity|]. now destruct (inherited n).
Qed.

Lemma set_own_version_shape pj pj1 :
  set_own_version npv pj = Normal pj1 ->
  pj1 = pj \/ exists x, pj1 = set "version" x pj.
Proof.
  intros H. destruct (set_own_version_spec _ _ H) as (n & _ & Hn).
  destruct (get n npv); [eauto|]. destruct (inherited n); eauto.
Qed.

Lemma keys_set_cases {A} k (x : A) (o : obj A) :
  keys (set k x o) = keys o \/
  (get k o = None /\ keys (set k x o) = (keys o ++ [k])%list).
Proof.
  destruct (get k o) as [y|] eqn:Hg.
  - left. apply keys_set_has. eapply get_Some_has; eassumption.
  - right. split; [reflexivity|]. rewrite set_new by assumption.
    unfold keys. now rewrite map_app.
Qed.

Lemma set_own_version_keys pj pj1 :
  set_own_version npv pj = Normal pj1 ->
  keys pj1 = keys pj \/
  (get "version" pj = None /\ keys pj1 = (keys pj ++ ["version"])%list).
Proof.
  intros H. destruct (set_own_version_shape _ _ H) as [->|[x ->]];
    [now left|apply keys_set_cases].
Qed.

Lemma set_own_version_frame pj pj1 g :
  set_own_version npv pj = Normal pj1 -> g <> "version" ->
  get g pj1 = get g pj.
Proof.
  intros H Hg. destruct (set_own_version_shape _ _ H) as [->|[x ->]];
    [reflexivity|]. apply get_set_other. congruence.
Qed.

(** The two statements of the function, one after the other. *)
Lemma updatePackageJson_unfold p pj :
  (exists e, set_own_version npv pj = Throw e /\
             updatePackageJson path_join p pj npv = (pj, Throw e)) \/
  (exists pj1 pj2 r,
     set_own_version npv pj = Normal pj1 /\
     for_of dependencyFields npv pj1 = (pj2, r) /\
     updatePackageJson path_join p pj npv
     = (pj2, match r with
             | Normal _ => Normal {| file := path_join p "package.json";
                                     data := stringify pj2 ++ nl |}
             | Throw e => Throw e
             end)).
Proof.
  unfold updatePackageJson.
  destruct (set_own_version npv pj) as [pj1|e]; [right|left; eauto].
  destruct (for_of dependencyFields npv pj1) as [pj2 r] eqn:Hr.
  exists pj1, pj2, r. split; [reflexivity|]. split; [exact Hr|].
  now destruct r.
Qed.

Lemma updatePackageJson_request p pj request :
  snd (updatePackageJson path_join p pj npv) = Normal request ->
  request = {| file := path_join p "package.json";
               data := stringify (fst (updatePackageJson path_join p pj npv))
                       ++ nl |}.
Proof.
  destruct (updatePackageJson_unfold p pj)
    as [(e & _ & ->)|(pj1 & pj2 & r & _ & _ & ->)]; [discriminate|].
  simpl. destruct r; congruence.
Qed.

(** A rewrite that completes has run both statements to their end. *)
Lemma updatePackageJson_Normal p pj w :
  snd (updatePackageJson path_join p pj npv) = Normal w ->
  exists pj1 u,
    set_own_version npv pj = Normal pj1 /\
    for_of dependencyFields npv pj1
    = (fst (updatePackageJson path_join p pj npv), Normal u).
Proof.
  destruct (updatePackageJson_unfold p pj)
    as [(e & _ & ->)|(pj1 & pj2 & r & H1 & H2 & ->)]; [discriminate|].
  simpl. destruct r as [u|e]; [|discriminate]. intros _. eauto.
Qed.

(** The properties of the manifest, in their order. *)
Lemma updatePackageJson_keys p pj :
  let pj' := fst (updatePackageJson path_join p pj npv) in
  keys pj' = keys pj \/
  (get "version" pj = None /\ keys pj' = (keys pj ++ ["version"])%list).
Proof.
  cbv zeta. destruct (updatePackageJson_unfold p pj)
    as [(e & _ & ->)|(pj1 & pj2 & r & H1 & H2 & ->)]; [now left|].
  simpl. replace pj2 with (fst (for_of dependencyFields npv pj1))
    by now rewrite H2.
  rewrite for_of_keys. now apply set_own_version_keys.
Qed.

(** The properties the function does not name. *)
Lemma updatePackageJson_frame p pj g :
  g <> "version" -> ~ In g dependencyFields ->
  get g (fst (updatePackageJson path_join p pj npv)) = get g pj.
Proof.
  intros Hv Hd. destruct (updatePackageJson_unfold p pj)
    as [(e & _ & ->)|(pj1 & pj2 & r & H1 & H2 & ->)]; [reflexivity|].
  simpl. replace pj2 with (fst (for_of dependencyFields npv pj1))
    by now rewrite H2.
  rewrite for_of_frame by assumption. now apply (set_own_version_frame pj).
Qed.

(** The [version] of the manifest after the call. *)
Lemma updatePackageJson_version p pj n :
  to_property_key (get "name" pj) = Normal n ->
  get "version" (fst (updatePackageJson path_join p pj npv))
  = match get n npv with
    | Some v => Some (JStr v)
    | None => if inherited n then Some (Object_prototype_get n)
              else get "version" pj
    end.
Proof.
  intros Hn. destruct (updatePackageJson_unfold p pj)
    as [(e & He & _)|(pj1 & pj2 & r & H1 & H2 & ->)].
  { unfold set_own_version in He. now rewrite Hn in He. }
  simpl. replace pj2 with (fst (for_of dependencyFields npv pj1))
    by now rewrite H2.
  rewrite for_of_frame
    by (intros H; now apply dependencyField_not_version in H).
  destruct (set_own_version_spec _ _ H1) as (n' & Hn' & Hv).
  rewrite Hn in Hn'. injection Hn' as <-.
  destruct (get n npv) as [v|]; [subst pj1; apply get_set_same|].
  destruct (inherited n); subst pj1; [apply get_set_same|reflexivity].
Qed.

(** A dependency field that holds an object, after a rewrite that
    completes. *)
Lemma updatePackageJson_field p pj w f o :
  snd (updatePackageJson path_join p pj npv) = Normal w ->
  In f dependencyFields -> get f pj = Some (JObj o) ->
  get f (fst (updatePackageJson path_join p pj npv))
  = Some (JObj (overwrite_all npv (keys npv) o)).
Proof.
  intros Hw Hf Ho.
  destruct (updatePackageJson_Normal _ _ _ Hw) as (pj1 & u & H1 & H2).
  eapply for_of_JObj; [apply dependencyFields_NoDup|exact H2|exact Hf|].
  rewrite (set_own_version_frame pj pj1) by
    (auto using dependencyField_not_version). exact Ho.
Qed.

(** A dependency field the manifest does not have. *)
Lemma updatePackageJson_absent p pj f :
  In f dependencyFields -> get f pj = None ->
  get f (fst (updatePackageJson path_join p pj npv)) = None.
Proof.
  intros Hf Hn. pose proof (updatePackageJson_keys p pj) as Hk.
  cbv zeta in Hk. apply get_None_In. apply get_None_In in Hn.
  destruct Hk as [->|[_ ->]]; [assumption|].
  rewrite in_app_iff. intros [H|[H|[]]]; [tauto|].
  symmetry in H. now apply dependencyField_not_version in H.
Qed.

(** With a name that has a string and typed dependency fields the rewrite
    completes. *)
Lemma updatePackageJson_completes p pj n :
  to_property_key (get "name" pj) = Normal n -> deps_typed pj ->
  exists w, snd (updatePackageJson path_join p pj npv) = Normal w.
Proof.
  intros Hn Ht. destruct (updatePackageJson_unfold p pj)
    as [(e & He & _)|(pj1 & pj2 & r & H1 & H2 & ->)].
  { unfold set_own_version in He. now rewrite Hn in He. }
  destruct (for_of_completes npv dependencyFields pj1) as [pj' Hc].
  { intros f deps Hf Hd. apply (Ht f deps Hf).
    rewrite <- Hd. symmetry. apply (set_own_version_frame pj); [assumption|].
    now apply dependencyField_not_version. }
  rewrite Hc in H2. injection H2 as <- <-. simpl. eauto.
Qed.

(** A rewrite is rejected with a [TypeError] or a [RangeError]. *)
Lemma updatePackageJson_errors p pj e :
  snd (updatePackageJson path_join p pj npv) = Throw e ->
  e = TypeError \/ e = RangeError.
Proof.
  destruct (updatePackageJson_unfold p pj)
    as [(e' & He & ->)|(pj1 & pj2 & r & H1 & H2 & ->)]; simpl.
  - intros [= <-]. left. eapply set_own_version_errors; eassumption.
  - destruct r as [u|e']; [discriminate|]. intros [= <-].
    apply (for_of_errors npv dependencyFields pj1). now rewrite H2.
Qed.
End Rewriter.
(** ** The mapping *)

Lemma get_fromEntries_const (v : string) (names : list string) (o : obj string) k :
  (forall x, get k o = Some x -> x = v) ->
  get k (fold_left (fun o e => set (fst e) (snd e) o)
                   (map (fun n => (n, v)) names) o)
  = if in_dec string_dec k names then Some v else get k o.
Proof.
  revert o. induction names as [|n names IH]; intros o Ho; [reflexivity|].
  simpl fold_left. rewrite IH.
  - rewrite get_set.
    destruct (in_dec string_dec k names) as [Hin|Hnin];
      destruct (in_dec string_dec k (n :: names)) as [Hin'|Hnin'];
      simpl in *; try reflexivity; try tauto.
    + destruct (String.eqb_spec k n); [reflexivity|]. exfalso. intuition congruence.
    + destruct (String.eqb_spec k n); [|reflexivity]. exfalso. intuition congruence.
  - intros x. rewrite get_set. destruct (String.eqb k n); [congruence|auto].
Qed.

Lemma newPackageVersions_get (packages : obj PackageInfo) version k :
  get k (newPackageVersions packages version)
  = if in_dec string_dec k (keys packages) then Some version else None.
Proof.
  unfold newPackageVersions, fromEntries.
  now rewrite get_fromEntries_const by discriminate.
Qed.

Lemma newPackageVersions_keys (packages packages' : obj PackageInfo) version :
  keys packages' = keys packages ->
  newPackageVersions packages' version = newPackageVersions packages version.
Proof. unfold newPackageVersions. now intros ->. Qed.

(** ** The driver *)

Section Driver.
Variable path_join : string -> string -> string.
Variable getPackages : PackagesFilter -> completion (obj PackageInfo).
Variable setReactNativeVersion : string -> obj string -> completion unit.
Variable writeFile : WriteRequest -> completion unit.
Implicit Types (version : string) (skip : bool) (packages : obj PackageInfo).

Local Abbreviation run_of version skip :=
  (setVersion path_join getPackages setReactNativeVersion writeFile version skip).
Local Abbreviation dispatch_of mapping :=
  (dispatch path_join writeFile mapping).

Lemma packagesToUpdate_In (packages : obj PackageInfo) pkg :
  In pkg (packagesToUpdate packages) <->
  In pkg (values packages) /\ name pkg <> "react-native".
Proof.
  unfold packagesToUpdate. rewrite filter_In, negb_true_iff.
  split; intros [H1 H2]; (split; [assumption|]).
  - now apply String.eqb_neq.
  - now apply String.eqb_neq.
Qed.

Lemma did_dispatch mapping pkg e :
  In e (did (dispatch_of mapping pkg)) ->
  e = CallUpdatePackageJson pkg mapping \/
  exists request,
    e = CallWriteFile request /\
    snd (updatePackageJson path_join (path pkg) (packageJson pkg) mapping)
    = Normal request.
Proof.
  unfold dispatch.
  destruct (updatePackageJson path_join (path pkg) (packageJson pkg) mapping)
    as [pj' [request|err]]; simpl.
  - intros [<-|[<-|[]]]; eauto.
  - intros [<-|[]]; auto.
Qed.

Lemma did_dispatch_call mapping pkg :
  In (CallUpdatePackageJson pkg mapping) (did (dispatch_of mapping pkg)).
Proof.
  unfold dispatch.
  destruct (updatePackageJson path_join (path pkg) (packageJson pkg) mapping)
    as [pj' [request|err]]; simpl; auto.
Qed.

(** The shape of a run. *)
Lemma setVersion_trace version skip e :
  In e (trace (run_of version skip)) ->
  exists packages,
    getPackages public_packages = Normal packages /\
    let mapping := newPackageVersions packages version in
    (e = CallSetReactNativeVersion
           (if skip then "1000.0.0" else version) mapping \/
     exists pkg, In pkg (packagesToUpdate packages) /\
                 In e (did (dispatch_of mapping pkg))).
Proof.
  unfold setVersion. fold public_packages.
  destruct (getPackages public_packages) as [packages|err]; [|contradiction].
  intros H. exists packages. split; [reflexivity|]. cbv zeta in *.
  destruct (setReactNativeVersion (if skip then "1000.0.0" else version)
              (newPackageVersions packages version)).
  - simpl in H. destruct H as [<-|H]; [now left|]. right.
    apply in_flat_map in H. destruct H as (d & Hd & He).
    apply in_map_iff in Hd. destruct Hd as (pkg & <- & Hpkg). eauto.
  - simpl in H. destruct H as [<-|[]]. now left.
Qed.

Lemma setVersion_resolved version skip packages :
  getPackages public_packages = Normal packages ->
  setReactNativeVersion (if skip then "1000.0.0" else version)
    (newPackageVersions packages version) = Normal tt ->
  let mapping := newPackageVersions packages version in
  let promises := map (dispatch_of mapping) (packagesToUpdate packages) in
  run_of version skip =
  {| trace := CallSetReactNativeVersion
                (if skip then "1000.0.0" else version) mapping
              :: flat_map did promises;
     rewritten := map after promises;
     outcome := Promise_all (map settled promises) |}.
Proof.
  intros Hp Hs. unfold setVersion. fold public_packages. rewrite Hp.
  cbv zeta. now rewrite Hs.
Qed.

Lemma setVersion_first_call version skip packages :
  getPackages public_packages = Normal packages ->
  hd_error (trace (run_of version skip))
  = Some (CallSetReactNativeVersion (if skip then "1000.0.0" else version)
            (newPackageVersions packages version)).
Proof.
  intros Hp. unfold setVersion. fold public_packages. rewrite Hp. cbv zeta.
  now destruct (setReactNativeVersion (if skip then "1000.0.0" else version)
                  (newPackageVersions packages version)).
Qed.

Lemma setVersion_mappings version skip packages e m :
  getPackages public_packages = Normal packages ->
  In e (trace (run_of version skip)) -> mapping_of e = Some m ->
  m = newPackageVersions packages version.
Proof.
  intros Hp He Hm. apply setVersion_trace in He.
  destruct He as (packages' & Hp' & He). rewrite Hp in Hp'.
  injection Hp' as <-. cbv zeta in He.
  destruct He as [->|(pkg & _ & He)]; [simpl in Hm; congruence|].
  apply did_dispatch in He. destruct He as [->|(request & -> & _)];
    simpl in Hm; congruence.
Qed.
End Driver.

(** ** Traces and promises *)

Lemma writes_app t t' : writes (t ++ t') = (writes t ++ writes t')%list.
Proof.
  induction t as [|e t IH]; [reflexivity|].
  destruct e; simpl; now rewrite IH.
Qed.

Lemma Promise_all_Normal (promises : list (completion unit)) :
  Promise_all promises = Normal tt <->
  forall c, In c promises -> c = Normal tt.
Proof.
  induction promises as [|[[]|e] promises IH]; simpl.
  - split; [intros _ c []|reflexivity].
  - rewrite IH. split; [intros H c [<-|Hc]; auto|auto].
  - split; [discriminate|]. intros H. specialize (H _ (or_introl eq_refl)).
    discriminate.
Qed.

Lemma Promise_all_Throw (promises : list (completion unit)) e :
  Promise_all promises = Throw e -> In (Throw e) promises.
Proof.
  induction promises as [|[[]|e'] promises IH]; simpl; [discriminate|auto|].
  intros [= ->]. now left.
Qed.

Section DriverFacts.
Variable path_join : string -> string -> string.
Variable getPackages : PackagesFilter -> completion (obj PackageInfo).
Variable setReactNativeVersion : string -> obj string -> completion unit.
Variable writeFile : WriteRequest -> completion unit.
Implicit Types (version : string) (skip : bool) (packages : obj PackageInfo).
Implicit Types (pkg : PackageInfo) (mapping : obj string).

Local Abbreviation run_of version skip :=
  (setVersion path_join getPackages setReactNativeVersion writeFile version skip).
Local Abbreviation rewrite_of mapping pkg :=
  (updatePackageJson path_join (path pkg) (packageJson pkg) mapping).

Lemma dispatch_fields mapping pkg :
  after (dispatch path_join writeFile mapping pkg)
  = {| name := name pkg; path := path pkg;
       packageJson := fst (rewrite_of mapping pkg) |} /\
  writes (did (dispatch path_join writeFile mapping pkg))
  = write_of (snd (rewrite_of mapping pkg)) /\
  settled (dispatch path_join writeFile mapping pkg)
  = match snd (rewrite_of mapping pkg) with
    | Normal request => writeFile request
    | Throw e => Throw e
    end.
Proof.
  unfold dispatch. now destruct (rewrite_of mapping pkg) as [pj' [request|e]].
Qed.

Lemma writes_dispatch_all mapping (pkgs : list PackageInfo) :
  writes (flat_map did (map (dispatch path_join writeFile mapping) pkgs))
  = flat_map (fun pkg => write_of (snd (rewrite_of mapping pkg))) pkgs.
Proof.
  induction pkgs as [|pkg pkgs IH]; [reflexivity|].
  simpl. rewrite writes_app, IH.
  now destruct (dispatch_fields mapping pkg) as (_ & -> & _).
Qed.

Lemma outcome_Normal_iff version skip :
  outcome (run_of version skip) = Normal tt <->
  exists packages,
    getPackages public_packages = Normal packages /\
    setReactNativeVersion (if skip then "1000.0.0" else version)
      (newPackageVersions packages version) = Normal tt /\
    forall pkg, In pkg (packagesToUpdate packages) ->
      exists request,
        snd (rewrite_of (newPackageVersions packages version) pkg)
        = Normal request /\
        writeFile request = Normal tt.
Proof.
  split.
  - unfold setVersion. fold public_packages.
    destruct (getPackages public_packages) as [packages|err]; [|discriminate].
    cbv zeta.
    destruct (setReactNativeVersion (if skip then "1000.0.0" else version)
                (newPackageVersions packages version)) as [[]|err] eqn:Hset;
      [|discriminate].
    cbn [outcome]. intros H. exists packages.
    split; [reflexivity|]. split; [assumption|].
    intros pkg Hpkg. rewrite Promise_all_Normal in H.
    specialize (H (settled (dispatch path_join writeFile
                              (newPackageVersions packages version) pkg))).
    destruct (dispatch_fields (newPackageVersions packages version) pkg)
      as (_ & _ & Hs).
    rewrite Hs in H.
    destruct (snd (rewrite_of (newPackageVersions packages version) pkg))
      as [request|e].
    + exists request. split; [reflexivity|]. apply H.
      rewrite map_map. apply in_map_iff. exists pkg. now rewrite Hs.
    + assert (Hf : @Throw unit e = Normal tt); [|discriminate].
      apply H. rewrite map_map. apply in_map_iff. exists pkg. now rewrite Hs.
  - intros (packages & Hp & Hs & Hall).
    rewrite (setVersion_resolved _ _ _ _ _ _ _ Hp Hs). cbv zeta. cbn [outcome].
    apply Promise_all_Normal. intros c Hc. rewrite map_map in Hc.
    apply in_map_iff in Hc. destruct Hc as (pkg & <- & Hpkg).
    destruct (Hall pkg Hpkg) as (request & Hr & Hw).
    destruct (dispatch_fields (newPackageVersions packages version) pkg)
      as (_ & _ & ->).
    now rewrite Hr.
Qed.
End DriverFacts.

(** ** Serialisation *)

Lemma append_assoc (a b c : string) : (a ++ b) ++ c = a ++ b ++ c.
Proof. induction a as [|x a IH]; simpl; [reflexivity|now rewrite IH]. Qed.

Lemma stringify_unfold o :
  stringify o
  = match property_texts "  " o with
    | [] => "{}"
    | texts => "{" ++ nl ++ "  "
               ++ String.concat ("," ++ nl ++ "  ") texts ++ nl ++ "}"
    end.
Proof. reflexivity. Qed.

Lemma stringify_closes o : exists body, stringify o = body ++ "}".
Proof.
  rewrite stringify_unfold. destruct (property_texts "  " o) as [|t ts].
  - now exists "{".
  - exists ("{" ++ nl ++ "  "
            ++ String.concat ("," ++ nl ++ "  ") (t :: ts) ++ nl).
    now rewrite !append_assoc.
Qed.

Lemma property_texts_In indent k v o :
  In (k, v) o -> serialisable v = true ->
  In (quote k ++ ": " ++ stringify_at indent v) (property_texts indent o).
Proof.
  intros Hin Hs. unfold property_texts. apply in_flat_map.
  exists (k, v). split; [assumption|]. rewrite Hs. now left.
Qed.

Lemma concat_cons sep t t' ts :
  String.concat sep (t :: t' :: ts) = t ++ sep ++ String.concat sep (t' :: ts).
Proof. reflexivity. Qed.

(** Every text of a list stands in the concatenation, after the line
    break and the indentation that follow the separating comma or the
    opening brace. *)
Lemma concat_In t ts :
  In t ts ->
  exists pre post,
    nl ++ "  " ++ String.concat ("," ++ nl ++ "  ") ts
    = pre ++ nl ++ "  " ++ t ++ post.
Proof.
  induction ts as [|t0 ts IH]; [contradiction|].
  intros [->|Hin].
  - exists "". destruct ts as [|t' ts].
    + exists "". cbn [String.concat]. 
      assert (E : forall s : string, s ++ "" = s)
        by (induction s as [|c s IHs]; simpl; [reflexivity|now rewrite IHs]).
      now rewrite E.
    + exists ("," ++ nl ++ "  " ++ String.concat ("," ++ nl ++ "  ") (t' :: ts)).
      rewrite concat_cons. reflexivity.
  - destruct ts as [|t' ts]; [contradiction|].
    destruct (IH Hin) as (pre & post & E).
    exists (nl ++ "  " ++ t0 ++ "," ++ pre), post.
    rewrite concat_cons.
    transitivity ((nl ++ "  " ++ t0 ++ ",")
                  ++ nl ++ "  "
                  ++ String.concat ("," ++ nl ++ "  ") (t' :: ts)).
    + now rewrite !append_assoc.
    + rewrite E. now rewrite !append_assoc.
Qed.

(** Every property that has a text stands in the text of the object on a
    line of its own, indented by two spaces. *)
Lemma stringify_property k v o :
  In (k, v) o -> serialisable v = true ->
  exists pre post,
    stringify o
    = "{" ++ pre ++ nl ++ "  " ++ quote k ++ ": " ++ stringify_at "  " v
          ++ post ++ nl ++ "}".
Proof.
  intros Hin Hs. pose proof (property_texts_In "  " k v o Hin Hs) as Ht.
  rewrite stringify_unfold.
  destruct (property_texts "  " o) as [|t ts] eqn:E; [contradiction|].
  destruct (concat_In _ _ Ht) as (pre & post & Hc).
  exists pre, post.
  change ("{" ++ nl ++ "  " ++ String.concat ("," ++ nl ++ "  ") (t :: ts)
              ++ nl ++ "}")
    with ("{" ++ (nl ++ "  " ++ String.concat ("," ++ nl ++ "  ") (t :: ts))
              ++ nl ++ "}").
  rewrite Hc. now rewrite !append_assoc.
Qed.

(** A first property that has a text opens the text of the object. *)
Lemma stringify_opens k v o :
  serialisable v = true ->
  exists tail,
    stringify ((k, v) :: o)
    = "{" ++ nl ++ "  " ++ quote k ++ ": " ++ stringify_at "  " v ++ tail.
Proof.
  intros Hs. rewrite stringify_unfold. unfold property_texts.
  cbn [flat_map]. rewrite Hs. fold (property_texts "  " o).
  cbn [app]. destruct (property_texts "  " o) as [|t ts].
  - exists (nl ++ "}"). cbn [String.concat]. now rewrite !append_assoc.
  - exists ("," ++ nl ++ "  " ++ String.concat ("," ++ nl ++ "  ") (t :: ts)
              ++ nl ++ "}").
    rewrite concat_cons. now rewrite !append_assoc.
Qed.

(** ** Reading back what was written *)

Lemma stringify_at_JArr indent l :
  stringify_at indent (JArr l)
  = match l with
    | [] => "[]"
    | _ => "[" ++ nl ++ (indent ++ "  ")
           ++ String.concat ("," ++ nl ++ (indent ++ "  "))
                (map (fun x => if serialisable x
                               then stringify_at (indent ++ "  ") x
                               else "null") l)
           ++ nl ++ indent ++ "]"
    end.
Proof. now destruct l. Qed.

Lemma stringify_at_JObj indent o :
  stringify_at indent (JObj o)
  = match property_texts (indent ++ "  ") o with
    | [] => "{}"
    | texts => "{" ++ nl ++ (indent ++ "  ")
               ++ String.concat ("," ++ nl ++ (indent ++ "  ")) texts
               ++ nl ++ indent ++ "}"
    end.
Proof. reflexivity. Qed.

Lemma persist_JObj o : persist (JObj o) = JObj (persist_object o).
Proof. reflexivity. Qed.

Lemma serialisable_persist j : serialisable (persist j) = serialisable j.
Proof.
  destruct j; try reflexivity. simpl.
  now destruct (String.eqb (number_text text) "null").
Qed.

(** Reading back changes no text. *)
Lemma stringify_at_persist j :
  forall indent, stringify_at indent (persist j) = stringify_at indent j.
Proof.
  induction j as [|b|t|s|l IH|o IH| |f] using json_nested_ind;
    intros indent; try reflexivity.
  - simpl. destruct (String.eqb_spec (number_text t) "null") as [E|];
      [|reflexivity]. simpl. now rewrite E.
  - cbn [persist]. rewrite !stringify_at_JArr.
    assert (E : map (fun x => if serialisable x
                              then stringify_at (indent ++ "  ") x
                              else "null")
                  (map (fun x => if serialisable x then persist x else JNull)
                     l)
                = map (fun x => if serialisable x
                                then stringify_at (indent ++ "  ") x
                                else "null") l).
    { induction IH as [|y l0 Hy _ IHl]; [reflexivity|].
      cbn [map]. rewrite IHl. f_equal.
      destruct (serialisable y) eqn:Hs; [|reflexivity].
      now rewrite serialisable_persist, Hs, Hy. }
    rewrite E. now destruct l.
  - rewrite persist_JObj, !stringify_at_JObj.
    replace (property_texts (indent ++ "  ") (persist_object o))
      with (property_texts (indent ++ "  ") o); [reflexivity|].
    induction o as [|[k x] o IHo]; [reflexivity|].
    unfold values in IH. cbn [map snd] in IH.
    apply Forall_cons_iff in IH. destruct IH as [Hx IH].
    unfold property_texts, persist_object in *. cbn [flat_map].
    destruct (serialisable x) eqn:Hs.
    + cbn [app flat_map]. rewrite serialisable_persist, Hs, Hx.
      cbn [app]. f_equal. now apply IHo.
    + cbn [app]. now apply IHo.
Qed.

Lemma stringify_persist_object o : stringify (persist_object o) = stringify o.
Proof.
  unfold stringify. rewrite <- persist_JObj. apply stringify_at_persist.
Qed.

Lemma get_persist_object k x (o : obj json) :
  get k o = Some x -> serialisable x = true ->
  get k (persist_object o) = Some (persist x).
Proof.
  intros Hg Hs. induction o as [|[k' y] o IH]; [discriminate|].
  unfold persist_object in *. cbn [flat_map]. simpl in Hg.
  destruct (String.eqb k k') eqn:E.
  - injection Hg as ->. rewrite Hs. simpl. now rewrite E.
  - destruct (serialisable y); simpl; [rewrite E|]; now apply IH.
Qed.

Lemma has_persist_object k (o : obj json) :
  has k (persist_object o) = true -> has k o = true.
Proof.
  rewrite !has_In. unfold keys, persist_object. rewrite !in_map_iff.
  intros ([k' y] & <- & Hin). apply in_flat_map in Hin.
  destruct Hin as ([k0 x] & Hin & Hy).
  destruct (serialisable x); [|contradiction].
  destruct Hy as [[= <- <-]|[]]. now exists (k0, x).
Qed.

Lemma get_persist_object_None k (o : obj json) :
  get k o = None -> get k (persist_object o) = None.
Proof.
  intros Hn. apply has_false_get.
  destruct (has k (persist_object o)) eqn:Hh; [|reflexivity].
  apply has_persist_object in Hh. unfold has in Hh. now rewrite Hn in Hh.
Qed.

(** ** Rewriting twice *)

Section Idempotence.
Variable path_join : string -> string -> string.
Variable npv : obj string.
Implicit Types (pj : PackageJson) (p : string).

Lemma get_has_keys {A} k (v : A) (o : obj A) : get k o = Some v -> In k (keys o).
Proof. intros H. apply has_In. eapply get_Some_has; eassumption. Qed.

(** The inner loop leaves an object in which it finds every value in
    place. *)
Lemma overwrite_all_up_to_date o :
  up_to_date_field npv (overwrite_all npv (keys npv) o).
Proof.
  intros k v Hv Hh. apply overwrite_all_hit; [|assumption|].
  - eapply get_has_keys; eassumption.
  - destruct Hh as [Hh|Hh]; [|now right].
    destruct (has k o) eqn:Ho; [now left|]. right.
    destruct (keys_overwrite_all npv (keys npv) o) as (added & Hk & Hadded).
    apply has_In in Hh. rewrite Hk in Hh. apply in_app_or in Hh.
    destruct Hh as [Hh|Hh]; [apply has_In in Hh; congruence|].
    destruct (Hadded k Hh) as (_ & Hi & Hp & _). auto.
Qed.

Lemma up_to_date_field_persist o :
  up_to_date_field npv o -> up_to_date_field npv (persist_object o).
Proof.
  intros H k v Hv Hh.
  change (JStr v) with (persist (JStr v)). apply get_persist_object;
    [|reflexivity].
  apply H; [assumption|]. destruct Hh as [Hh|Hh]; [|now right].
  left. now apply has_persist_object.
Qed.

Lemma up_to_date_field_noop ks o :
  up_to_date_field npv o -> overwrite_all npv ks o = o.
Proof. intros H. apply overwrite_all_noop. intros k v _. apply H. Qed.

(** The loop over the fields changes nothing in a manifest whose
    dependency fields hold the values of the mapping. *)
Lemma for_of_noop fs pj :
  (forall f d, In f fs -> get f pj = Some d ->
     d = JNull \/ exists o, d = JObj o /\ up_to_date_field npv o) ->
  for_of fs npv pj = (pj, Normal tt).
Proof.
  induction fs as [|f fs IH]; intros H; [reflexivity|].
  rewrite for_of_cons.
  assert (Hstep : field_step npv f pj = (pj, Normal tt)).
  { destruct (get f pj) as [d|] eqn:Hf.
    - destruct (H f d (or_introl eq_refl) Hf) as [Hd|(o & Hd & Ho)]; subst d.
      + apply field_step_nullish. now rewrite Hf.
      + rewrite (field_step_JObj npv f pj o Hf).
        rewrite up_to_date_field_noop by assumption.
        now rewrite set_same_value.
    - apply field_step_nullish. now rewrite Hf. }
  rewrite Hstep. apply IH. intros g d Hg. apply H. now right.
Qed.

(** A field that is missing or [null] is passed over. *)
Lemma for_of_nullish fs pj f :
  is_nullish (get f pj) = true ->
  get f (fst (for_of fs npv pj)) = get f pj.
Proof.
  revert pj. induction fs as [|f0 fs IH]; intros pj Hn; [reflexivity|].
  rewrite for_of_cons. destruct (string_dec f0 f) as [->|Hne].
  - rewrite field_step_nullish by assumption. now apply IH.
  - pose proof (field_step_frame npv f0 f pj) as Hfr.
    destruct (field_step npv f0 pj) as [pj1 [u|e]]; simpl in *.
    + rewrite IH; rewrite Hfr by congruence; [reflexivity|assumption].
    + apply Hfr. congruence.
Qed.

Lemma updatePackageJson_nullish p pj f :
  In f dependencyFields -> is_nullish (get f pj) = true ->
  get f (fst (updatePackageJson path_join p pj npv)) = get f pj.
Proof.
  intros Hf Hn. destruct (updatePackageJson_unfold path_join npv p pj)
    as [(e & _ & ->)|(pj1 & pj2 & r & H1 & H2 & ->)]; [reflexivity|].
  simpl. replace pj2 with (fst (for_of dependencyFields npv pj1))
    by now rewrite H2.
  assert (Hg : get f pj1 = get f pj).
  { apply (set_own_version_frame npv pj); [assumption|].
    now apply dependencyField_not_version. }
  rewrite <- Hg. apply for_of_nullish. now rewrite Hg.
Qed.

(** Rewriting a manifest that holds the values of the mapping. *)
Lemma updatePackageJson_noop p pj n :
  up_to_date npv pj -> deps_typed pj ->
  to_property_key (get "name" pj) = Normal n ->
  updatePackageJson path_join p pj npv
  = (pj, Normal {| file := path_join p "package.json";
                   data := stringify pj ++ nl |}).
Proof.
  intros [Hv Hd] Ht Hn.
  destruct (updatePackageJson_unfold path_join npv p pj)
    as [(e & He & _)|(pj1 & pj2 & r & H1 & H2 & ->)].
  { unfold set_own_version in He. now rewrite Hn in He. }
  assert (E : pj1 = pj).
  { destruct (set_own_version_spec _ _ _ H1) as (n' & Hn' & Hpj1).
    specialize (Hv n' Hn'). destruct (get n' npv) as [v|].
    - subst pj1. now apply set_same_value.
    - now rewrite Hv in Hpj1. }
  subst pj1. rewrite for_of_noop in H2.
  - now injection H2 as <- <-.
  - intros f d Hf Hg. destruct (Ht f d Hf Hg) as [->|[o ->]]; [now left|].
    right. exists o. split; [reflexivity|]. eapply Hd; eassumption.
Qed.

(** What is read back after a rewrite that completes holds the values of
    the mapping. *)
Lemma updatePackageJson_read_back p pj w :
  name_typed pj -> deps_typed pj -> found_own npv pj ->
  snd (updatePackageJson path_join p pj npv) = Normal w ->
  let pj' := persist_object (fst (updatePackageJson path_join p pj npv)) in
  up_to_date npv pj' /\ deps_typed pj' /\
  exists n, to_property_key (get "name" pj') = Normal n.
Proof.
  intros Hname Ht Hown Hw pj'.
  set (u := fst (updatePackageJson path_join p pj npv)) in *.
  assert (Hnu : get "name" u = get "name" pj).
  { apply updatePackageJson_frame; [discriminate|].
    intros H. now apply dependencyField_not_name in H. }
  assert (Hkey : exists n, to_property_key (get "name" pj) = Normal n /\
                           to_property_key (get "name" pj') = Normal n).
  { destruct Hname as [Hn|[n Hn]].
    - exists "undefined". rewrite Hn. split; [reflexivity|].
      unfold pj'. rewrite get_persist_object_None; [reflexivity|congruence].
    - exists n. rewrite Hn. split; [reflexivity|]. unfold pj'.
      rewrite (get_persist_object "name" (JStr n)); [reflexivity| |reflexivity].
      congruence. }
  destruct Hkey as (n & Hn & Hn').
  assert (Hfield : forall f, In f dependencyFields ->
            get f pj' = None \/ get f pj' = Some JNull \/
            exists o, get f pj' = Some (JObj o) /\ up_to_date_field npv o).
  { intros f Hf. destruct (get f pj) as [d|] eqn:Hd.
    - destruct (Ht f d Hf Hd) as [->|[o ->]].
      + right. left. unfold pj'.
        change JNull with (persist JNull). apply get_persist_object;
          [|reflexivity].
        unfold u. rewrite updatePackageJson_nullish; [assumption..|].
        now rewrite Hd.
      + right. right. eexists. split.
        * unfold pj'. rewrite <- persist_JObj. apply get_persist_object;
            [|reflexivity].
          eapply updatePackageJson_field; eassumption.
        * apply up_to_date_field_persist, overwrite_all_up_to_date.
    - left. unfold pj'. apply get_persist_object_None.
      now apply updatePackageJson_absent. }
  split; [split|split].
  - intros n0 Hn0. rewrite Hn' in Hn0. injection Hn0 as <-.
    pose proof (updatePackageJson_version path_join npv p pj n Hn) as Hv.
    fold u in Hv. destruct (get n npv) as [v|] eqn:Hg.
    + unfold pj'. change (JStr v) with (persist (JStr v)).
      now apply get_persist_object.
    + destruct (inherited n) eqn:Hi; [|reflexivity].
      specialize (Hown n Hn Hi). unfold has in Hown. now rewrite Hg in Hown.
  - intros f o Hf Ho.
    destruct (Hfield f Hf) as [H|[H|(o' & H & Hup)]];
      rewrite H in Ho; [discriminate..|]. now injection Ho as <-.
  - intros f d Hf Hd.
    destruct (Hfield f Hf) as [H|[H|(o' & H & _)]];
      rewrite H in Hd; [discriminate| |]; injection Hd as <-; eauto.
  - eauto.
Qed.

(** Rewriting what is read back after a rewrite that completes changes
    nothing and writes the text that was written. *)
Lemma updatePackageJson_twice p pj w :
  name_typed pj -> deps_typed pj -> found_own npv pj ->
  snd (updatePackageJson path_join p pj npv) = Normal w ->
  let pj' := persist_object (fst (updatePackageJson path_join p pj npv)) in
  updatePackageJson path_join p pj' npv = (pj', Normal w).
Proof.
  intros Hname Ht Hown Hw pj'.
  destruct (updatePackageJson_read_back p pj w Hname Ht Hown Hw)
    as (Hup & Ht' & n & Hn).
  fold pj' in Hup, Ht', Hn.
  rewrite (updatePackageJson_noop p pj' n Hup Ht' Hn).
  rewrite (updatePackageJson_request path_join npv p pj w Hw).
  unfold pj'. now rewrite stringify_persist_object.
Qed.
End Idempotence.


(** ** What a dependency field holds after the call *)

Section FieldCases.
Variable path_join : string -> string -> string.
Variable npv : obj string.
Implicit Types (pj : PackageJson) (p : string).

(** The field is as it was, when the loop was left before its turn or
    passed it over, or it is as the inner loop left it. *)
Lemma for_of_field fs pj f d :
  NoDup fs -> get f pj = Some d ->
  get f (fst (for_of fs npv pj)) = Some d \/
  get f (fst (for_of fs npv pj)) = Some (fst (for_in (keys npv) npv d)).
Proof.
  intros Hnd. revert pj. induction Hnd as [|f0 fs Hnin Hnd IH]; intros pj Hd;
    [now left|].
  rewrite for_of_cons. destruct (string_dec f0 f) as [->|Hne].
  - assert (Hrest : forall pj1 x, get f pj1 = Some x ->
              get f (fst (for_of fs npv pj1)) = Some x)
      by (intros pj1 x Hx; now rewrite for_of_frame).
    destruct (field_step_shape npv f pj) as [Hs|(d0 & d' & Hd0 & _ & Hin & Hs)].
    + left. destruct (field_step npv f pj) as [pj1 [u|e]]; simpl in Hs;
        subst pj1; [now apply Hrest|exact Hd].
    + right. rewrite Hd in Hd0. injection Hd0 as <-. rewrite Hin. cbn [fst].
      destruct (field_step npv f pj) as [pj1 [u|e]]; simpl in Hs; subst pj1.
      * apply Hrest. apply get_set_same.
      * apply get_set_same.
  - pose proof (field_step_frame npv f0 f pj) as Hfr.
    destruct (field_step npv f0 pj) as [pj1 [u|e]]; simpl in Hfr.
    + apply IH. rewrite Hfr by congruence. exact Hd.
    + left. simpl. rewrite Hfr by congruence. exact Hd.
Qed.

Lemma updatePackageJson_field_cases p pj f d :
  In f dependencyFields -> get f pj = Some d ->
  get f (fst (updatePackageJson path_join p pj npv)) = Some d \/
  get f (fst (updatePackageJson path_join p pj npv))
  = Some (fst (for_in (keys npv) npv d)).
Proof.
  intros Hf Hd. destruct (updatePackageJson_unfold path_join npv p pj)
    as [(e & _ & ->)|(pj1 & pj2 & r & H1 & H2 & ->)]; [now left|].
  simpl. replace pj2 with (fst (for_of dependencyFields npv pj1))
    by now rewrite H2.
  apply for_of_field; [apply dependencyFields_NoDup|].
  rewrite <- Hd. apply (set_own_version_frame npv pj); [assumption|].
  now apply dependencyField_not_version.
Qed.

(** Without keys to add, the inner loop keeps the keys of an object. *)
Lemma keys_overwrite_all_same o :
  added_keys npv o = [] ->
  keys (overwrite_all npv (keys npv) o) = keys o.
Proof.
  intros Ha. destruct (keys_overwrite_all npv (keys npv) o)
    as (added & -> & Hadded).
  destruct added as [|k added]; [apply app_nil_r|]. exfalso.
  destruct (Hadded k (or_introl eq_refl)) as (_ & Hi & Hp & Hn & Hk).
  assert (Hin : In k (added_keys npv o)).
  { unfold added_keys. apply filter_In. split; [assumption|].
    rewrite Hi. apply String.eqb_neq in Hp. rewrite Hp. simpl.
    destruct (has k o) eqn:Hh; [|reflexivity].
    apply has_In in Hh. contradiction. }
  now rewrite Ha in Hin.
Qed.
End FieldCases.

(** * The claims *)

Section Claims.
Variable path_join : string -> string -> string.
Variable getPackages : PackagesFilter -> completion (obj PackageInfo).
Variable setReactNativeVersion : string -> obj string -> completion unit.
Variable writeFile : WriteRequest -> completion unit.
Implicit Types (pj : PackageJson) (p version : string) (npv : obj string).
Implicit Types (skip : bool) (packages : obj PackageInfo).

Local Abbreviation run_of version skip :=
  (setVersion path_join getPackages setReactNativeVersion writeFile version skip).

(** C2, as the code has it.  When the rewrite of a manifest completes,
    every key of a dependency field of the manifest that holds an object
    and that is also a key of the mapping holds, in that field, the value
    the mapping gives it. *)
Theorem updatePackageJson_completeness p pj npv w f o k v :
  snd (updatePackageJson path_join p pj npv) = Normal w ->
  In f dependencyFields -> get f pj = Some (JObj o) ->
  In k (keys o) -> get k npv = Some v ->
  exists o', get f (fst (updatePackageJson path_join p pj npv))
             = Some (JObj o') /\
             get k o' = Some (JStr v).
Proof.
  intros Hw Hf Ho Hk Hv. eexists. split.
  - eapply updatePackageJson_field; eassumption.
  - apply overwrite_all_hit; [|assumption|].
    + apply has_In. eapply get_Some_has; eassumption.
    + left. now apply has_In.
Qed.

(** C3, as the code has it.  Whether or not the rewrite completes, the
    call keeps the properties of the manifest in their order, adding at most
    a [version] at the end when there was none; every property other than
    [version] and the dependency fields keeps its value; a dependency field
    that is missing stays missing, and one that holds [null], a boolean, a
    number or a string keeps its value; and a dependency field that holds an
    object holds an object afterwards, in which every key that is no key of
    the mapping has the value it had, and which has the keys it had, in
    their order, when the mapping has no key that the object only inherits
    from [Object.prototype]. *)
Theorem updatePackageJson_non_interference p pj npv :
  let pj' := fst (updatePackageJson path_join p pj npv) in
  (keys pj' = keys pj \/
   (get "version" pj = None /\ keys pj' = (keys pj ++ ["version"])%list)) /\
  (forall g, g <> "version" -> ~ In g dependencyFields ->
             get g pj' = get g pj) /\
  (forall f, In f dependencyFields -> get f pj = None -> get f pj' = None) /\
  (forall f d, In f dependencyFields -> get f pj = Some d ->
     is_nullish (Some d) || is_primitive d = true -> get f pj' = Some d) /\
  (forall f o, In f dependencyFields -> get f pj = Some (JObj o) ->
     exists o',
       get f pj' = Some (JObj o') /\
       (forall k, get k npv = None -> get k o' = get k o) /\
       (added_keys npv o = [] -> keys o' = keys o)).
Proof.
  intros pj'. split; [apply updatePackageJson_keys|].
  split; [intros g; apply updatePackageJson_frame|].
  split; [intros f; apply updatePackageJson_absent|]. split.
  - intros f d Hf Hd Hk. destruct (is_nullish (Some d)) eqn:Hn.
    + unfold pj'. rewrite updatePackageJson_nullish; [assumption..|].
      now rewrite Hd.
    + destruct (updatePackageJson_field_cases path_join npv p pj f d Hf Hd)
        as [H|H]; [exact H|].
      unfold pj'. rewrite H. f_equal. rewrite for_in_primitive; [reflexivity|].
      destruct d; try discriminate Hk; try discriminate Hn; exact I.
  - intros f o Hf Ho.
    destruct (updatePackageJson_field_cases path_join npv p pj f _ Hf Ho)
      as [H|H].
    + exists o. split; [exact H|]. split; reflexivity.
    + rewrite for_in_JObj in H. cbn [fst] in H.
      exists (overwrite_all npv (keys npv) o). split; [exact H|]. split.
      * intros k Hk. apply get_overwrite_all_frame. now apply get_None_In.
      * apply keys_overwrite_all_same.
Qed.

(** C5, as the code has it.  A manifest without a [name] does not make
    the rewrite fail: with dependency fields that are missing, [null] or
    objects the rewrite completes and writes the file, the mapping being
    looked up under the key ["undefined"] for the version.  And in a run
    where the registry and the platform setter resolve, every package of the
    registry that is not named [react-native] is handed to
    [updatePackageJson], and the write of every rewrite that completes is
    issued, whatever the other rewrites do. *)
Theorem updatePackageJson_missing_name :
  (forall p pj npv,
     get "name" pj = None -> deps_typed pj ->
     exists w,
       snd (updatePackageJson path_join p pj npv) = Normal w /\
       file w = path_join p "package.json" /\
       data w = stringify (fst (updatePackageJson path_join p pj npv)) ++ nl /\
       get "version" (fst (updatePackageJson path_join p pj npv))
       = match get "undefined" npv with
         | Some v => Some (JStr v)
         | None => get "version" pj
         end) /\
  (forall version skip packages pkg,
     getPackages public_packages = Normal packages ->
     setReactNativeVersion (if skip then "1000.0.0" else version)
       (newPackageVersions packages version) = Normal tt ->
     In pkg (values packages) -> name pkg <> "react-native" ->
     let run := setVersion path_join getPackages setReactNativeVersion
                  writeFile version skip in
     let mapping := newPackageVersions packages version in
     In (CallUpdatePackageJson pkg mapping) (trace run) /\
     forall request,
       snd (updatePackageJson path_join (path pkg) (packageJson pkg) mapping)
       = Normal request ->
       In (CallWriteFile request) (trace run)).
Proof.
  split.
  - intros p pj npv Hn Ht.
    assert (Hkey : to_property_key (get "name" pj) = Normal "undefined")
      by now rewrite Hn.
    destruct (updatePackageJson_completes path_join npv p pj _ Hkey Ht)
      as [w Hw].
    exists w. split; [assumption|].
    rewrite (updatePackageJson_request path_join _ _ _ _ Hw) at 1 2.
    cbn [file data]. split; [reflexivity|]. split; [reflexivity|].
    now rewrite (updatePackageJson_version path_join npv p pj _ Hkey).
  - intros version skip packages pkg Hp Hs Hin Hname run mapping.
    subst run mapping. rewrite (setVersion_resolved _ _ _ _ _ _ _ Hp Hs).
    cbv zeta. cbn [trace].
    assert (Hd : In (dispatch path_join writeFile
                       (newPackageVersions packages version) pkg)
                    (map (dispatch path_join writeFile
                            (newPackageVersions packages version))
                       (packagesToUpdate packages))).
    { apply in_map. now apply packagesToUpdate_In. }
    split.
    + right. apply in_flat_map. eexists. split; [exact Hd|].
      apply did_dispatch_call.
    + intros request Hr. right. apply in_flat_map. eexists.
      split; [exact Hd|]. unfold dispatch.
      destruct (updatePackageJson path_join (path pkg) (packageJson pkg)
                  (newPackageVersions packages version)) as [pj' c].
      simpl in Hr. subst c. simpl. auto.
Qed.

(** C8, as the code has it.  When the rewrite completes, the file written
    is [package.json] under the package path, and its text is that of the
    caller's manifest object as the call leaves it (the object is changed
    in place, no copy is made), followed by one line break: the properties
    come in the order they had, a [version] the manifest did not have
    coming last; the text before the line break ends with the closing
    brace; every property whose value has a JSON text stands on a line of
    its own, indented by two spaces, the key and the text of the value
    separated by a colon and a space; and the first property, when its
    value has a JSON text, follows the opening brace. *)
Theorem updatePackageJson_serialises_in_place p pj npv w :
  snd (updatePackageJson path_join p pj npv) = Normal w ->
  let pj' := fst (updatePackageJson path_join p pj npv) in
  file w = path_join p "package.json" /\
  data w = stringify pj' ++ nl /\
  (keys pj' = keys pj \/
   (get "version" pj = None /\ keys pj' = (keys pj ++ ["version"])%list)) /\
  (exists body, data w = body ++ "}" ++ nl) /\
  (forall k v, In (k, v) pj' -> serialisable v = true ->
     exists pre post,
       data w = "{" ++ pre ++ nl ++ "  " ++ quote k ++ ": "
                    ++ stringify_at "  " v ++ post ++ nl ++ "}" ++ nl) /\
  (forall k v rest, pj' = (k, v) :: rest -> serialisable v = true ->
     exists tail,
       data w = "{" ++ nl ++ "  " ++ quote k ++ ": "
                    ++ stringify_at "  " v ++ tail).
Proof.
  intros Hw pj'. rewrite (updatePackageJson_request path_join _ _ _ _ Hw).
  fold pj'. cbn [file data]. split; [reflexivity|]. split; [reflexivity|].
  split; [|split; [|split]].
  - apply updatePackageJson_keys.
  - destruct (stringify_closes pj') as [body ->]. exists body.
    apply append_assoc.
  - intros k v Hin Hs.
    destruct (stringify_property k v pj' Hin Hs) as (pre & post & ->).
    exists pre, post. now rewrite !append_assoc.
  - intros k v rest -> Hs. destruct (stringify_opens k v rest Hs) as [tail ->].
    exists (tail ++ nl). now rewrite !append_assoc.
Qed.
(** C1, as the code has it.  With [skipReactNativeVersion] set, the
    sentinel ["1000.0.0"] is the version the platform setter is called
    with; the mapping, given to the setter and to every rewrite, gives
    every package name of the registry the requested version. *)
Theorem setVersion_skip_sentinel version packages :
  getPackages public_packages = Normal packages ->
  (exists m, hd_error (trace (run_of version true))
             = Some (CallSetReactNativeVersion "1000.0.0" m)) /\
  (forall e m k, In e (trace (run_of version true)) ->
     mapping_of e = Some m -> In k (keys packages) ->
     get k m = Some version).
Proof.
  intros Hp. split.
  - eexists.
    exact (setVersion_first_call path_join getPackages setReactNativeVersion
             writeFile version true packages Hp).
  - intros e m k He Hm Hk.
    rewrite (setVersion_mappings _ _ _ _ _ _ _ _ _ Hp He Hm).
    rewrite newPackageVersions_get.
    now destruct (in_dec string_dec k (keys packages)).
Qed.

(** C9 (distinguished exclusion).  In a run, [updatePackageJson] is never
    called on a package named [react-native], and every file the run
    writes is the manifest of a package of the registry that is not named
    [react-native]. *)
Theorem setVersion_excludes_react_native version skip e :
  In e (trace (run_of version skip)) ->
  match e with
  | CallSetReactNativeVersion _ _ => True
  | CallUpdatePackageJson pkg _ => name pkg <> "react-native"
  | CallWriteFile request =>
      exists packages pkg,
        getPackages public_packages = Normal packages /\
        In pkg (values packages) /\ name pkg <> "react-native" /\
        file request = path_join (path pkg) "package.json"
  end.
Proof.
  intros He. apply setVersion_trace in He.
  destruct He as (packages & Hp & He). cbv zeta in He.
  destruct He as [->|(pkg & Hpkg & He)]; [exact I|].
  apply packagesToUpdate_In in Hpkg. destruct Hpkg as [Hin Hname].
  apply did_dispatch in He. destruct He as [->|(request & -> & Hr)].
  - assumption.
  - exists packages, pkg. repeat split; try assumption.
    now rewrite (updatePackageJson_request path_join _ _ _ _ Hr).
Qed.

(** C10 (the mapping is constant).  The mapping of a run gives every
    package name of the registry, [react-native] included, the requested
    version and has no other key; it is the mapping given to the platform
    setter and to every rewrite, whatever the skip flag, which only
    chooses the version the platform setter is called with. *)
Theorem setVersion_mapping_constant version skip packages :
  getPackages public_packages = Normal packages ->
  let mapping := newPackageVersions packages version in
  (forall k, In k (keys packages) -> get k mapping = Some version) /\
  (forall k v, get k mapping = Some v -> In k (keys packages) /\ v = version) /\
  hd_error (trace (run_of version skip))
  = Some (CallSetReactNativeVersion
            (if skip then "1000.0.0" else version) mapping) /\
  (forall e m, In e (trace (run_of version skip)) ->
     mapping_of e = Some m -> m = mapping).
Proof.
  intros Hp mapping. subst mapping. split; [|split; [|split]].
  - intros k Hk. rewrite newPackageVersions_get.
    now destruct (in_dec string_dec k (keys packages)).
  - intros k v H. rewrite newPackageVersions_get in H.
    destruct (in_dec string_dec k (keys packages)); [|discriminate].
    split; congruence.
  - exact (setVersion_first_call path_join getPackages setReactNativeVersion
             writeFile version skip packages Hp).
  - intros e m He Hm. eapply setVersion_mappings; eassumption.
Qed.
End Claims.

(** ** Writing the same files again *)

Lemma commit_all_get writeFile requests d f :
  (forall request, In request requests -> writeFile request = Normal tt) ->
  commit_all writeFile requests d f
  = match last_write f requests with
    | Some text => Some text
    | None => d f
    end.
Proof.
  revert d. induction requests as [|request rest IH]; intros d H;
    [reflexivity|].
  unfold commit_all in *. simpl. rewrite IH by (intros r Hr; apply H; now right).
  destruct (last_write f rest); [reflexivity|]. unfold commit.
  rewrite (H request (or_introl eq_refl)).
  now destruct (String.eqb f (file request)).
Qed.

Lemma commit_all_twice writeFile writeFile' requests d f :
  (forall request, In request requests -> writeFile request = Normal tt) ->
  (forall request, In request requests -> writeFile' request = Normal tt) ->
  commit_all writeFile' requests (commit_all writeFile requests d) f
  = commit_all writeFile requests d f.
Proof.
  intros H H'. rewrite !commit_all_get by assumption.
  now destruct (last_write f requests).
Qed.

Section SecondRun.
Variable path_join : string -> string -> string.
Variable mapping : obj string.
Implicit Types (pkg : PackageInfo).

Local Abbreviation rewrite_of pkg :=
  (updatePackageJson path_join (path pkg) (packageJson pkg) mapping).

(** The rewrite of a package read back after its rewrite completed. *)
Lemma rewrite_read_back pkg request :
  name_typed (packageJson pkg) -> deps_typed (packageJson pkg) ->
  found_own mapping (packageJson pkg) ->
  snd (rewrite_of pkg) = Normal request ->
  let pkg' := read_back {| name := name pkg; path := path pkg;
                           packageJson := fst (rewrite_of pkg) |} in
  rewrite_of pkg' = (packageJson pkg', Normal request).
Proof.
  intros Hn Ht Ho Hr pkg'. unfold pkg', read_back. cbn [path packageJson].
  now apply updatePackageJson_twice.
Qed.

Lemma rewrite_all_read_back (writeFile : WriteRequest -> completion unit)
    (pkgs : list PackageInfo) :
  (forall pkg, In pkg pkgs ->
     name_typed (packageJson pkg) /\ deps_typed (packageJson pkg) /\
     found_own mapping (packageJson pkg)) ->
  (forall pkg, In pkg pkgs ->
     exists request, snd (rewrite_of pkg) = Normal request) ->
  let pkgs' := map read_back
                 (map after (map (dispatch path_join writeFile mapping) pkgs)) in
  flat_map (fun pkg => write_of (snd (rewrite_of pkg))) pkgs'
  = flat_map (fun pkg => write_of (snd (rewrite_of pkg))) pkgs /\
  map (fun pkg => {| name := name pkg; path := path pkg;
                     packageJson := fst (rewrite_of pkg) |}) pkgs'
  = pkgs'.
Proof.
  induction pkgs as [|pkg pkgs IH]; intros Htyped Hdone; [now split|].
  destruct IH as [IHw IHa].
  { intros q Hq. apply Htyped. now right. }
  { intros q Hq. apply Hdone. now right. }
  destruct (Htyped pkg (or_introl eq_refl)) as (Hn & Ht & Ho).
  destruct (Hdone pkg (or_introl eq_refl)) as [request Hr].
  pose proof (rewrite_read_back pkg request Hn Ht Ho Hr) as Hrb.
  cbv zeta in *. cbn [map flat_map].
  destruct (dispatch_fields path_join writeFile mapping pkg) as (-> & _ & _).
  rewrite Hrb, Hr. cbn [fst snd]. rewrite IHw, IHa. split; reflexivity.
Qed.
End SecondRun.

Section TwoRuns.
Variable path_join : string -> string -> string.
Variable getPackages getPackages' : PackagesFilter -> completion (obj PackageInfo).
Variable setReactNativeVersion setReactNativeVersion'
  : string -> obj string -> completion unit.
Variable writeFile writeFile' : WriteRequest -> completion unit.
Implicit Types (version : string) (skip : bool) (packages : obj PackageInfo).

(** C6, as the code has it.  Take a run of [setVersion] that resolves, on
    a registry in which every package to update has a manifest as its type
    has it: its [name] is a string or missing, and a member of
    [Object.prototype] only when the registry has a package of that name,
    and its dependency fields are missing, [null] or objects.  Take a
    second run with the same arguments on the registry as it is read after
    the first: the same package names, and for the packages to update the
    manifests read back from the files the first run wrote.  When the
    platform setter resolves in the second run, the second run writes the
    same files with the same text as the first, and leaves the manifests as
    it read them; and when the second run resolves, the disk after it is the
    disk after the first.  And rewriting a manifest with typed dependency
    fields that already holds the values of the mapping leaves it as it is,
    so that the text written is that of the manifest before the call. *)
Theorem setVersion_idempotent version skip packages packages' :
  getPackages public_packages = Normal packages ->
  getPackages' public_packages = Normal packages' ->
  keys packages' = keys packages ->
  (forall pkg, In pkg (packagesToUpdate packages) ->
     name_typed (packageJson pkg) /\ deps_typed (packageJson pkg) /\
     found_own (newPackageVersions packages version) (packageJson pkg)) ->
  let first := setVersion path_join getPackages setReactNativeVersion
                 writeFile version skip in
  let second := setVersion path_join getPackages' setReactNativeVersion'
                  writeFile' version skip in
  outcome first = Normal tt ->
  packagesToUpdate packages' = map read_back (rewritten first) ->
  (setReactNativeVersion' (if skip then "1000.0.0" else version)
     (newPackageVersions packages' version) = Normal tt ->
   writes (trace second) = writes (trace first) /\
   rewritten second = packagesToUpdate packages') /\
  (outcome second = Normal tt ->
   forall d f,
     commit_all writeFile' (writes (trace second))
       (commit_all writeFile (writes (trace first)) d) f
     = commit_all writeFile (writes (trace first)) d f) /\
  (forall p pj npv,
     up_to_date npv pj -> deps_typed pj ->
     fst (updatePackageJson path_join p pj npv) = pj /\
     forall w, snd (updatePackageJson path_join p pj npv) = Normal w ->
               data w = stringify pj ++ nl).
Proof.
  intros Hp Hp' Hk Htyped first second Hfirst Hread.
  set (mapping := newPackageVersions packages version) in *.
  assert (Hm : newPackageVersions packages' version = mapping)
    by now apply newPackageVersions_keys.
  rewrite Hm.
  apply (outcome_Normal_iff path_join getPackages setReactNativeVersion
           writeFile) in Hfirst.
  destruct Hfirst as (packages0 & Hp0 & Hs & Hall).
  rewrite Hp in Hp0. injection Hp0 as <-. fold mapping in Hs, Hall.
  assert (Hfirst_eq :
            first = {| trace := CallSetReactNativeVersion
                                  (if skip then "1000.0.0" else version) mapping
                                :: flat_map did
                                     (map (dispatch path_join writeFile mapping)
                                        (packagesToUpdate packages));
                       rewritten := map after
                                      (map (dispatch path_join writeFile mapping)
                                         (packagesToUpdate packages));
                       outcome := Promise_all
                                    (map settled
                                       (map (dispatch path_join writeFile
                                               mapping)
                                          (packagesToUpdate packages))) |})
    by exact (setVersion_resolved _ _ _ _ version skip _ Hp Hs).
  assert (Hdone : forall pkg, In pkg (packagesToUpdate packages) ->
            exists request,
              snd (updatePackageJson path_join (path pkg) (packageJson pkg)
                     mapping) = Normal request).
  { intros pkg Hpkg. destruct (Hall pkg Hpkg) as (request & Hr & _). eauto. }
  destruct (rewrite_all_read_back path_join mapping writeFile
              (packagesToUpdate packages) Htyped Hdone) as [Hw Ha].
  cbv zeta in Hw, Ha.
  assert (Hwrites_first : forall request,
            In request (writes (trace first)) -> writeFile request = Normal tt).
  { intros request. rewrite Hfirst_eq. cbn [trace writes].
    rewrite writes_dispatch_all. intros Hin. apply in_flat_map in Hin.
    destruct Hin as (pkg & Hpkg & Hin).
    destruct (Hall pkg Hpkg) as (request' & Hr & Hres).
    rewrite Hr in Hin. destruct Hin as [<-|[]]. exact Hres. }
  assert (Hsame :
            setReactNativeVersion' (if skip then "1000.0.0" else version)
              mapping = Normal tt ->
            writes (trace second) = writes (trace first) /\
            rewritten second = packagesToUpdate packages').
  { intros Hs'. rewrite <- Hm in Hs'. unfold second.
    rewrite (setVersion_resolved _ _ _ _ version skip _ Hp' Hs').
    cbv zeta. cbn [trace rewritten writes]. rewrite Hm, writes_dispatch_all.
    rewrite Hread, Hfirst_eq. cbn [trace rewritten writes].
    rewrite writes_dispatch_all, Hw. split; [reflexivity|].
    rewrite <- Ha at 2. rewrite !map_map. apply map_ext. intros pkg.
    now destruct (dispatch_fields path_join writeFile' mapping
                    (read_back (after (dispatch path_join writeFile mapping
                                         pkg)))) as (-> & _ & _). }
  split; [exact Hsame|]. split.
  - intros Hsecond d f.
    apply (outcome_Normal_iff path_join getPackages' setReactNativeVersion'
             writeFile') in Hsecond.
    destruct Hsecond as (packages0 & Hp0 & Hs' & Hall').
    rewrite Hp' in Hp0. injection Hp0 as <-. rewrite Hm in Hs', Hall'.
    destruct (Hsame Hs') as [Hwr _].
    assert (Hwrites_second : forall request,
              In request (writes (trace first)) ->
              writeFile' request = Normal tt).
    { intros request. rewrite <- Hwr. unfold second. rewrite <- Hm in Hs'.
      rewrite (setVersion_resolved _ _ _ _ version skip _ Hp' Hs').
      cbv zeta. cbn [trace writes]. rewrite Hm, writes_dispatch_all.
      intros Hin. apply in_flat_map in Hin. destruct Hin as (pkg & Hpkg & Hin).
      destruct (Hall' pkg Hpkg) as (request' & Hr & Hres).
      rewrite Hr in Hin. destruct Hin as [<-|[]]. exact Hres. }
    rewrite Hwr. now apply commit_all_twice.
  - intros p pj npv Hu Ht.
    destruct (to_property_key (get "name" pj)) as [n|e] eqn:Hn.
    + rewrite (updatePackageJson_noop path_join npv p pj n Hu Ht Hn).
      split; [reflexivity|]. now intros w [= <-].
    + destruct (updatePackageJson_unfold path_join npv p pj)
        as [(e' & _ & ->)|(pj1 & pj2 & r & H1 & _)].
      * split; [reflexivity|discriminate].
      * unfold set_own_version in H1. now rewrite Hn in H1.
Qed.
End TwoRuns.

(** ** The claims on the examples *)

(** C1 as stated fails: in a run with the skip flag set, the mapping the
    platform setter is given maps [react-native] to the requested version,
    not to the sentinel. *)
Lemma setVersion_skip_mapping_not_sentinel :
  exists e m,
    In e (trace (setVersion join_posix sample_registry setter_resolves
                   write_resolves "0.2.0" true)) /\
    mapping_of e = Some m /\
    get "react-native" m = Some "0.2.0" /\
    get "react-native" m <> Some "1000.0.0".
Proof.
  eexists. eexists. split; [left; reflexivity|].
  split; [reflexivity|]. split; [reflexivity|]. vm_compute. discriminate.
Qed.

Lemma setVersion_skip_sentinel_witness :
  (exists m, hd_error (trace (setVersion join_posix sample_registry
                                setter_resolves write_resolves "0.2.0" true))
             = Some (CallSetReactNativeVersion "1000.0.0" m)) /\
  (forall e m k,
     In e (trace (setVersion join_posix sample_registry setter_resolves
                    write_resolves "0.2.0" true)) ->
     mapping_of e = Some m -> In k (keys sample_packages) ->
     get k m = Some "0.2.0").
Proof.
  apply (setVersion_skip_sentinel join_posix sample_registry setter_resolves
           write_resolves "0.2.0" sample_packages).
  reflexivity.
Defined.

Lemma setVersion_excludes_react_native_witness :
  name {| name := "core"; path := "packages/core";
          packageJson := sample_core |} <> "react-native".
Proof.
  apply (setVersion_excludes_react_native join_posix sample_registry
           setter_resolves write_resolves "0.2.0" false
           (CallUpdatePackageJson
              {| name := "core"; path := "packages/core";
                 packageJson := sample_core |}
              (newPackageVersions sample_packages "0.2.0"))).
  vm_compute. right. left. reflexivity.
Defined.

Lemma setVersion_mapping_constant_witness :
  get "react-native" (newPackageVersions sample_packages "0.2.0")
  = Some "0.2.0".
Proof.
  apply (setVersion_mapping_constant join_posix sample_registry
           setter_resolves write_resolves "0.2.0" true sample_packages).
  - reflexivity.
  - vm_compute. right. right. left. reflexivity.
Defined.

(** C2 as stated fails.  With a string for [dependencies] the rewrite is
    rejected before it comes to [devDependencies], whose key [tool-a], a key
    of the mapping, keeps its value.  And with an array for [dependencies]
    and a mapping that has the keys ["2"] and ["length"], the rewrite
    completes and the array has lost the element under ["2"]. *)
Lemma updatePackageJson_incomplete :
  ~ (forall f o k v,
       In f dependencyFields -> get f sample_untyped = Some (JObj o) ->
       In k (keys o) -> get k sample_mapping = Some v ->
       exists o',
         get f (fst (updatePackageJson join_posix "packages/core"
                       sample_untyped sample_mapping)) = Some (JObj o') /\
         get k o' = Some (JStr v)) /\
  (get "dependencies" sample_array
   = Some (JArr [JStr "a"; JStr "b"; JStr "c"]) /\
   in_array "2" [JStr "a"; JStr "b"; JStr "c"] = true /\
   get "2" sample_array_mapping = Some "1" /\
   (exists w, snd (updatePackageJson join_posix "packages/app" sample_array
                     sample_array_mapping) = Normal w) /\
   get "dependencies"
     (fst (updatePackageJson join_posix "packages/app" sample_array
             sample_array_mapping)) = Some (JArr [JStr "a"]) /\
   in_array "2" [JStr "a"] = false).
Proof.
  split.
  - intros H.
    destruct (H "devDependencies" [("tool-a", JStr "0.1.0")] "tool-a" "0.2.0")
      as (o' & Ho' & Hv); try reflexivity.
    + right. left. reflexivity.
    + left. reflexivity.
    + vm_compute in Ho'. injection Ho' as <-. discriminate Hv.
  - split; [reflexivity|]. split; [vm_compute; reflexivity|].
    split; [reflexivity|]. split; [eexists; vm_compute; reflexivity|].
    split; vm_compute; reflexivity.
Qed.

Lemma updatePackageJson_completeness_witness :
  exists o',
    get "devDependencies"
      (fst (updatePackageJson join_posix "packages/core" sample_core
              sample_mapping)) = Some (JObj o') /\
    get "tool-a" o' = Some (JStr "0.2.0").
Proof.
  eapply (updatePackageJson_completeness join_posix "packages/core"
            sample_core sample_mapping _ "devDependencies" _ "tool-a" "0.2.0").
  - vm_compute. reflexivity.
  - right. left. reflexivity.
  - reflexivity.
  - left. reflexivity.
  - reflexivity.
Defined.

(** C3 as stated fails.  With an array for [dependencies] and a mapping
    that has the keys ["2"] and ["length"], ["1"] is a key of the field and
    no key of the mapping; the rewrite completes and the array has lost the
    element under ["1"]. *)
Lemma updatePackageJson_cuts_array :
  get "dependencies" sample_array
  = Some (JArr [JStr "a"; JStr "b"; JStr "c"]) /\
  in_array "1" [JStr "a"; JStr "b"; JStr "c"] = true /\
  get "1" sample_array_mapping = None /\
  (exists w, snd (updatePackageJson join_posix "packages/app" sample_array
                    sample_array_mapping) = Normal w) /\
  get "dependencies"
    (fst (updatePackageJson join_posix "packages/app" sample_array
            sample_array_mapping)) = Some (JArr [JStr "a"]) /\
  in_array "1" [JStr "a"] = false.
Proof.
  split; [reflexivity|]. split; [vm_compute; reflexivity|].
  split; [reflexivity|]. split; [eexists; vm_compute; reflexivity|].
  split; vm_compute; reflexivity.
Qed.

Lemma updatePackageJson_non_interference_witness :
  get "files"
    (fst (updatePackageJson join_posix "packages/core" sample_core
            sample_mapping)) = get "files" sample_core.
Proof.
  apply (proj1 (proj2 (updatePackageJson_non_interference join_posix
                         "packages/core" sample_core sample_mapping))).
  - discriminate.
  - simpl. intros [H|[H|[]]]; discriminate.
Defined.


(** C7 in a run on a registry with the packages [app] and [constructor].
    The manifest of [app] has an empty object for [dependencies]; the run
    leaves it with the dependency [constructor], which it did not have. *)
Theorem setVersion_creates_dependency :
  let run := setVersion join_posix sample_constructor_registry
               setter_resolves write_resolves "1.0.0" false in
  get "dependencies" sample_app = Some (JObj []) /\
  map packageJson (rewritten run)
  = [[("name", JStr "app"); ("version", JStr "1.0.0");
      ("dependencies", JObj [("constructor", JStr "1.0.0")])];
     [("name", JStr "constructor"); ("version", JStr "1.0.0")]] /\
  outcome run = Normal tt.
Proof. split; [reflexivity|]. split; reflexivity. Qed.

(** C5 as stated fails: the rewrite of a manifest without a [name]
    completes and writes the file. *)
Lemma updatePackageJson_nameless_completes :
  get "name" sample_nameless = None /\
  snd (updatePackageJson join_posix "packages/x" sample_nameless sample_mapping)
  = Normal {| file := "packages/x/package.json";
              data := stringify [("version", JStr "0.1.0");
                                 ("dependencies",
                                  JObj [("core", JStr "0.2.0")])] ++ nl |}.
Proof. split; reflexivity. Qed.

(** C8 as stated fails: the call changes the manifest object of the
    caller. *)
Lemma updatePackageJson_mutates_argument :
  get "version" sample_core = Some (JStr "0.1.0") /\
  get "version" (fst (updatePackageJson join_posix "packages/core" sample_core
                        sample_mapping)) = Some (JStr "0.2.0") /\
  fst (updatePackageJson join_posix "packages/core" sample_core sample_mapping)
  <> sample_core.
Proof.
  split; [reflexivity|]. split; [reflexivity|].
  intros H. apply (f_equal (get "version")) in H. vm_compute in H.
  discriminate.
Qed.

Lemma sample_nameless_typed : deps_typed sample_nameless.
Proof.
  intros f deps [<-|[<-|[]]]; vm_compute; intros [= <-]; right; eexists;
    reflexivity.
Defined.

Lemma updatePackageJson_missing_name_witness :
  (exists w,
     snd (updatePackageJson join_posix "packages/x" sample_nameless
            sample_mapping) = Normal w /\
     file w = join_posix "packages/x" "package.json" /\
     data w = stringify (fst (updatePackageJson join_posix "packages/x"
                                sample_nameless sample_mapping)) ++ nl /\
     get "version" (fst (updatePackageJson join_posix "packages/x"
                           sample_nameless sample_mapping))
     = Some (JStr "0.1.0")) /\
  In (CallUpdatePackageJson
        {| name := "tool-a"; path := "packages/tool-a";
           packageJson := sample_tool |}
        (newPackageVersions sample_packages "0.2.0"))
     (trace (setVersion join_posix sample_registry setter_resolves
               write_resolves "0.2.0" false)).
Proof.
  split.
  - apply (proj1 (updatePackageJson_missing_name join_posix sample_registry
                    setter_resolves write_resolves)
             "packages/x" sample_nameless sample_mapping).
    + reflexivity.
    + exact sample_nameless_typed.
  - refine (proj1 (proj2 (updatePackageJson_missing_name join_posix
                            sample_registry setter_resolves write_resolves)
                     "0.2.0" false sample_packages
                     {| name := "tool-a"; path := "packages/tool-a";
                        packageJson := sample_tool |} _ _ _ _)).
    + reflexivity.
    + reflexivity.
    + right. left. reflexivity.
    + discriminate.
Defined.

Lemma updatePackageJson_serialises_in_place_witness :
  exists body,
    data {| file := "packages/core/package.json";
            data := stringify
                      (fst (updatePackageJson join_posix "packages/core"
                              sample_core sample_mapping)) ++ nl |}
    = body ++ "}" ++ nl.
Proof.
  apply (updatePackageJson_serialises_in_place join_posix "packages/core"
           sample_core sample_mapping).
  reflexivity.
Defined.

(** C6 as stated fails.  On a registry with the packages ["3"] and
    ["length"], the first with an array of two elements for [dependencies],
    a run for version ["4"] resolves and gives the array the length 4; the
    file written has [null] for the two elements that are missing.  A second
    run on the registry as it is read back finds an element under ["3"] and
    overwrites it: the file of the package is not what the first run
    wrote. *)
Lemma setVersion_twice_differs :
  let first := setVersion join_posix sample_numbered_registry setter_resolves
                 write_resolves "4" false in
  let second := setVersion join_posix sample_numbered_registry_after
                  setter_resolves write_resolves "4" false in
  outcome first = Normal tt /\ outcome second = Normal tt /\
  keys sample_numbered_packages_after = keys sample_numbered_packages /\
  packagesToUpdate sample_numbered_packages_after
  = map read_back (rewritten first) /\
  commit_all write_resolves (writes (trace second))
    (commit_all write_resolves (writes (trace first)) (fun _ => None))
    "packages/3/package.json"
  <> commit_all write_resolves (writes (trace first)) (fun _ => None)
       "packages/3/package.json".
Proof.
  cbv zeta. split; [vm_compute; reflexivity|].
  split; [vm_compute; reflexivity|]. split; [reflexivity|].
  split; [vm_compute; reflexivity|]. vm_compute. discriminate.
Qed.

Lemma sample_packages_typed pkg :
  In pkg (packagesToUpdate sample_packages) ->
  name_typed (packageJson pkg) /\ deps_typed (packageJson pkg) /\
  found_own (newPackageVersions sample_packages "0.2.0") (packageJson pkg).
Proof.
  intros [<-|[<-|[]]]; (split; [right; eexists; reflexivity|]); split.
  - intros f deps [<-|[<-|[]]]; vm_compute; intros [= <-]; right; eexists;
      reflexivity.
  - intros n Hn Hi. vm_compute in Hn. injection Hn as <-. discriminate Hi.
  - intros f deps [<-|[<-|[]]]; vm_compute; discriminate.
  - intros n Hn Hi. vm_compute in Hn. injection Hn as <-. discriminate Hi.
Defined.

Lemma setVersion_idempotent_witness :
  writes (trace (setVersion join_posix sample_registry_after setter_resolves
                   write_resolves "0.2.0" true))
  = writes (trace (setVersion join_posix sample_registry setter_resolves
                     write_resolves "0.2.0" true)).
Proof.
  apply (setVersion_idempotent join_posix sample_registry sample_registry_after
           setter_resolves setter_resolves write_resolves write_resolves
           "0.2.0" true sample_packages sample_packages_after);
    try reflexivity.
  exact sample_packages_typed.
Defined.

(** * Further properties of the rewriter *)

Lemma has_keys_eq {A B} k (o : obj A) (o' : obj B) :
  keys o = keys o' -> has k o = has k o'.
Proof.
  intros E. destruct (has k o) eqn:H1, (has k o') eqn:H2; try reflexivity.
  - apply has_In in H1. rewrite E in H1. apply has_In in H1. congruence.
  - apply has_In in H2. rewrite <- E in H2. apply has_In in H2. congruence.
Qed.

Lemma has_app_other {A} k k' (v : A) (o : obj A) :
  k' <> k -> has k' (o ++ [(k, v)])%list = has k' o.
Proof.
  intros Hne. destruct (has k' o) eqn:H1.
  - apply has_In. rewrite keys_app. apply in_or_app. left. now apply has_In.
  - destruct (has k' (o ++ [(k, v)])%list) eqn:H2; [|reflexivity].
    apply has_In in H2. rewrite keys_app in H2. apply in_app_or in H2.
    destruct H2 as [H2|[H2|[]]]; [apply has_In in H2|simpl in H2]; congruence.
Qed.

Section AddedKeys.
Variable npv : obj string.

(** The keys of an object after the inner loop: those it had, in their
    order, then those the loop added, in the order of the mapping. *)
Lemma keys_overwrite_all_exact ks o :
  NoDup ks -> (forall k, In k ks -> In k (keys npv)) ->
  keys (overwrite_all npv ks o)
  = (keys o ++ filter (fun k => inherited k
                                && negb (String.eqb k "__proto__")
                                && negb (has k o)) ks)%list.
Proof.
  intros Hnd. revert o. induction Hnd as [|k ks Hnin Hnd IH]; intros o Hin.
  { simpl. now rewrite app_nil_r. }
  unfold overwrite_all in *. cbn [fold_left filter].
  assert (Hk : exists v, get k npv = Some v).
  { assert (Hh : has k npv = true) by (apply has_In, Hin; now left).
    unfold has in Hh. destruct (get k npv) as [v|]; [eauto|discriminate]. }
  destruct Hk as [v Hv].
  assert (Hrest : forall o1 : obj json,
            (forall k', k' <> k -> has k' o1 = has k' o) ->
            filter (fun k' => inherited k'
                              && negb (String.eqb k' "__proto__")
                              && negb (has k' o1)) ks
            = filter (fun k' => inherited k'
                                && negb (String.eqb k' "__proto__")
                                && negb (has k' o)) ks).
  { intros o1 Ho1. apply filter_ext_in. intros k' Hk'.
    rewrite Ho1; [reflexivity|]. intros ->. contradiction. }
  rewrite IH by (intros k' Hk'; apply Hin; now right).
  unfold overwrite. rewrite Hv. destruct (has k o) eqn:Hh.
  - rewrite andb_false_r. rewrite keys_set_has by assumption. f_equal.
    apply Hrest. intros k' _. apply has_keys_eq. now apply keys_set_has.
  - rewrite andb_true_r.
    destruct (inherited k && negb (String.eqb k "__proto__")) eqn:Ha.
    + rewrite keys_app. cbn [keys map fst]. rewrite <- app_assoc.
      cbn [app]. f_equal. f_equal. apply Hrest. intros k' Hne.
      now apply has_app_other.
    + f_equal.
Qed.

(** The object a dependency field holds after the inner loop, by its keys
    and by the value under each key. *)
Lemma overwrite_all_closed_form o :
  NoDup (keys npv) ->
  keys (overwrite_all npv (keys npv) o) = (keys o ++ added_keys npv o)%list /\
  forall k,
    get k (overwrite_all npv (keys npv) o)
    = match get k npv with
      | Some v =>
          if has k o || (inherited k && negb (String.eqb k "__proto__"))
          then Some (JStr v) else None
      | None => get k o
      end.
Proof.
  intros Hnd. split; [now apply keys_overwrite_all_exact|].
  intros k. destruct (get k npv) as [v|] eqn:Hv.
  - destruct (has k o || (inherited k && negb (String.eqb k "__proto__")))
      eqn:Hc.
    + apply overwrite_all_hit; [|assumption|].
      * apply has_In. eapply get_Some_has; eassumption.
      * apply orb_true_iff in Hc. destruct Hc as [Hc|Hc]; [now left|right].
        apply andb_true_iff in Hc. destruct Hc as [Hi Hp].
        split; [assumption|]. intros ->. discriminate Hp.
    + apply orb_false_iff in Hc. destruct Hc as [Hh Hc].
      apply get_None_In.
      destruct (keys_overwrite_all npv (keys npv) o) as (added & -> & Hadded).
      rewrite in_app_iff. intros [Hin|Hin].
      * apply has_In in Hin. congruence.
      * destruct (Hadded k Hin) as (_ & Hi & Hp & _). rewrite Hi in Hc.
        simpl in Hc. apply negb_false_iff, String.eqb_eq in Hc. contradiction.
  - apply get_overwrite_all_frame. now apply get_None_In.
Qed.
End AddedKeys.

Lemma name_typed_key (pj : PackageJson) :
  name_typed pj -> exists n, to_property_key (get "name" pj) = Normal n.
Proof. intros [->|[n ->]]; simpl; eauto. Qed.

Lemma for_of_empty fs (pj : PackageJson) : for_of fs [] pj = (pj, Normal tt).
Proof.
  induction fs as [|f fs IH]; [reflexivity|].
  rewrite for_of_cons.
  assert (E : field_step [] f pj = (pj, Normal tt)).
  { unfold field_step. destruct (get f pj) as [d|] eqn:Hf; [|reflexivity].
    destruct (is_nullish (Some d)); [reflexivity|]. simpl.
    now rewrite set_same_value. }
  now rewrite E.
Qed.

Section RewriterExtras.
Variable path_join : string -> string -> string.
Implicit Types (pj : PackageJson) (p : string) (npv : obj string).

(** X1.  A rewrite is rejected with a [TypeError] or a [RangeError] and
    with nothing else.  It completes when the [name] of the manifest is a
    string or is missing and the dependency fields are missing, [null] or
    objects.  And with such a name, a mapping that has a key, and a
    boolean, a number or a string for [dependencies], it is rejected with a
    [TypeError]. *)
Theorem updatePackageJson_rejected p pj npv :
  (forall e, snd (updatePackageJson path_join p pj npv) = Throw e ->
             e = TypeError \/ e = RangeError) /\
  (name_typed pj -> deps_typed pj ->
   exists w, snd (updatePackageJson path_join p pj npv) = Normal w) /\
  (forall d, name_typed pj -> npv <> [] ->
     get "dependencies" pj = Some d -> is_primitive d = true ->
     snd (updatePackageJson path_join p pj npv) = Throw TypeError).
Proof.
  split; [|split].
  - intros e. apply updatePackageJson_errors.
  - intros Hn Ht. destruct (name_typed_key pj Hn) as [n Hkey].
    eapply updatePackageJson_completes; eassumption.
  - intros d Hn Hne Hd Hp. destruct (name_typed_key pj Hn) as [n Hkey].
    destruct (updatePackageJson_unfold path_join npv p pj)
      as [(e & He & _)|(pj1 & pj2 & r & H1 & H2 & ->)].
    { unfold set_own_version in He. now rewrite Hkey in He. }
    assert (Hd1 : get "dependencies" pj1 = Some d).
    { rewrite <- Hd. now apply (set_own_version_frame npv pj). }
    unfold dependencyFields in H2. rewrite for_of_cons in H2.
    unfold field_step in H2. rewrite Hd1 in H2.
    assert (Hin : for_in (keys npv) npv d = (d, Throw TypeError)).
    { rewrite for_in_primitive by (destruct d; try discriminate; exact I).
      destruct npv as [|[k v] npv']; [congruence|reflexivity]. }
    rewrite Hin in H2.
    destruct d; try discriminate; simpl in H2; now injection H2 as <- <-.
Qed.

(** X2.  With an empty mapping and a manifest whose name is no member of
    [Object.prototype], the rewrite changes nothing and is not rejected:
    the manifest is written back as it is, whatever its dependency fields
    hold. *)
Theorem updatePackageJson_empty_mapping p pj n :
  to_property_key (get "name" pj) = Normal n -> inherited n = false ->
  updatePackageJson path_join p pj []
  = (pj, Normal {| file := path_join p "package.json";
                   data := stringify pj ++ nl |}).
Proof.
  intros Hn Hi. unfold updatePackageJson, set_own_version.
  rewrite Hn. simpl get. rewrite Hi. now rewrite for_of_empty.
Qed.

(** X3.  When the rewrite completes with a mapping that lists every key
    once, a dependency field that holds an object holds afterwards an
    object with the keys it had, in their order, followed by the keys of
    the mapping that it only inherited, [__proto__] apart, in the order of
    the mapping; a key of the mapping that the object had or got holds the
    string of the mapping, and every other key of the object holds its
    former value. *)
Theorem updatePackageJson_field_closed_form p pj npv w f o :
  snd (updatePackageJson path_join p pj npv) = Normal w ->
  In f dependencyFields -> get f pj = Some (JObj o) -> NoDup (keys npv) ->
  exists o',
    get f (fst (updatePackageJson path_join p pj npv)) = Some (JObj o') /\
    keys o' = (keys o ++ added_keys npv o)%list /\
    forall k,
      get k o'
      = match get k npv with
        | Some v =>
            if has k o || (inherited k && negb (String.eqb k "__proto__"))
            then Some (JStr v) else None
        | None => get k o
        end.
Proof.
  intros Hw Hf Ho Hnd. eexists. split.
  - eapply updatePackageJson_field; eassumption.
  - now apply overwrite_all_closed_form.
Qed.
(** X15.  The mapping is looked up under the string of the [name] of the
    manifest, ["undefined"] when there is none.  After the call, [version]
    is the string of the mapping when the mapping has that key; it is the
    member of [Object.prototype] of that name when the mapping only
    inherits it; and it is what it was otherwise. *)
Theorem updatePackageJson_version_after p pj npv n :
  to_property_key (get "name" pj) = Normal n ->
  get "version" (fst (updatePackageJson path_join p pj npv))
  = match get n npv with
    | Some v => Some (JStr v)
    | None => if inherited n then Some (Object_prototype_get n)
              else get "version" pj
    end.
Proof. apply updatePackageJson_version. Qed.
End RewriterExtras.

(** ** The order of the keys of the mapping *)

Section KeyOrder.
Implicit Types (o : obj json) (k : string) (ks : list string).

Lemma has_set_present {A} (o' : obj A) k k' (v : A) :
  has k o' = true -> has k' (set k v o') = has k' o'.
Proof.
  unfold has. intros H. rewrite get_set.
  destruct (String.eqb_spec k' k) as [Heq|]; [subst k'|reflexivity].
  now destruct (get k o').
Qed.

Lemma set_comm {A} (o' : obj A) k k' (v v' : A) :
  k <> k' -> has k o' = true -> has k' o' = true ->
  set k v (set k' v' o') = set k' v' (set k v o').
Proof.
  intros Hne. unfold has.
  induction o' as [|[k0 v0] o' IH]; simpl; [discriminate|].
  destruct (String.eqb_spec k k0) as [Hk|Hk];
    destruct (String.eqb_spec k' k0) as [Hk'|Hk']; simpl.
  - congruence.
  - intros _ _. subst k0. rewrite String.eqb_refl.
    destruct (String.eqb_spec k' k); [congruence|reflexivity].
  - intros _ _. subst k0. rewrite String.eqb_refl.
    destruct (String.eqb_spec k k'); [congruence|reflexivity].
  - intros H H'. destruct (String.eqb_spec k k0); [contradiction|].
    destruct (String.eqb_spec k' k0); [contradiction|].
    now rewrite IH.
Qed.

(** Without inherited keys a turn of the inner loop overwrites what is
    there and adds nothing. *)
Lemma overwrite_own npv o k :
  no_inherited npv ->
  overwrite npv o k
  = match get k npv with
    | Some v => if has k o then set k (JStr v) o else o
    | None => o
    end.
Proof.
  intros H. unfold overwrite. destruct (get k npv) as [v|] eqn:Hv;
    [|reflexivity].
  destruct (has k o); [reflexivity|].
  destruct (inherited k) eqn:Hi; [|reflexivity].
  rewrite (H k Hi) in Hv. discriminate.
Qed.

Lemma overwrite_comm npv o k k' :
  no_inherited npv ->
  overwrite npv (overwrite npv o k) k' = overwrite npv (overwrite npv o k') k.
Proof.
  intros H. destruct (string_dec k k') as [->|Hne]; [reflexivity|].
  rewrite !overwrite_own by assumption.
  destruct (has k o) eqn:Hk; destruct (has k' o) eqn:Hk';
    destruct (get k npv) as [v|]; destruct (get k' npv) as [v'|];
    rewrite ?has_set_present, ?Hk, ?Hk' by assumption; try reflexivity.
  now apply set_comm.
Qed.

Lemma overwrite_twice npv o k :
  no_inherited npv ->
  overwrite npv (overwrite npv o k) k = overwrite npv o k.
Proof.
  intros H. rewrite !overwrite_own by assumption.
  destruct (get k npv) as [v|]; [|reflexivity].
  destruct (has k o) eqn:Hk; [|now rewrite Hk].
  rewrite has_set by assumption.
  apply set_same_value, get_set_same.
Qed.

Lemma overwrite_all_Permutation npv ks ks' :
  no_inherited npv -> Permutation ks ks' ->
  forall o, overwrite_all npv ks o = overwrite_all npv ks' o.
Proof.
  intros H. unfold overwrite_all.
  induction 1 as [|k ks ks' _ IH|k k' ks|ks1 ks2 ks3 _ IH1 _ IH2]; intros o;
    simpl.
  - reflexivity.
  - apply IH.
  - now rewrite overwrite_comm.
  - now rewrite IH1.
Qed.

Lemma overwrite_all_repeated npv ks o k :
  no_inherited npv ->
  In k ks -> overwrite_all npv (k :: ks) o = overwrite_all npv ks o.
Proof.
  intros H Hin. apply in_split in Hin. destruct Hin as (l1 & l2 & ->).
  assert (Hp : Permutation (l1 ++ k :: l2) (k :: l1 ++ l2))
    by (symmetry; apply Permutation_middle).
  rewrite (overwrite_all_Permutation npv _ _ H Hp o).
  change (overwrite_all npv (k :: l1 ++ k :: l2) o)
    with (overwrite_all npv (l1 ++ k :: l2) (overwrite npv o k)).
  rewrite (overwrite_all_Permutation npv _ _ H Hp).
  unfold overwrite_all. simpl. now rewrite overwrite_twice.
Qed.

Lemma overwrite_all_nodup npv ks o :
  no_inherited npv ->
  overwrite_all npv (nodup string_dec ks) o = overwrite_all npv ks o.
Proof.
  intros H. revert o. induction ks as [|k ks IH]; intros o; [reflexivity|].
  simpl nodup. destruct (in_dec string_dec k ks) as [Hin|Hnin].
  - now rewrite IH, overwrite_all_repeated.
  - unfold overwrite_all in *. simpl. apply IH.
Qed.

Lemma overwrite_all_same_keys npv ks ks' o :
  no_inherited npv -> (forall k, In k ks <-> In k ks') ->
  overwrite_all npv ks o = overwrite_all npv ks' o.
Proof.
  intros Hn H.
  rewrite <- (overwrite_all_nodup npv ks), <- (overwrite_all_nodup npv ks')
    by assumption.
  apply overwrite_all_Permutation; [assumption|].
  apply NoDup_Permutation; try apply NoDup_nodup.
  intros k. now rewrite !nodup_In.
Qed.

Lemma overwrite_all_ext npv npv' ks o :
  (forall k, get k npv = get k npv') ->
  overwrite_all npv ks o = overwrite_all npv' ks o.
Proof.
  intros H. revert o. unfold overwrite_all.
  induction ks as [|k ks IH]; intros o; [reflexivity|]. simpl.
  rewrite IH. unfold overwrite. now rewrite H.
Qed.

Lemma same_get_same_keys (npv npv' : obj string) :
  (forall k, get k npv = get k npv') ->
  forall k, In k (keys npv) <-> In k (keys npv').
Proof.
  intros H k. rewrite <- !has_In. unfold has. now rewrite H.
Qed.

Lemma field_step_same_get npv npv' f (pj : PackageJson) :
  (forall k, get k npv = get k npv') -> no_inherited npv ->
  (forall d, get f pj = Some d -> d = JNull \/ exists o, d = JObj o) ->
  field_step npv f pj = field_step npv' f pj.
Proof.
  intros H Hn Ht. destruct (get f pj) as [d|] eqn:Hf.
  - destruct (Ht d eq_refl) as [Hd|[o Hd]]; subst d.
    + now rewrite !field_step_nullish by now rewrite Hf.
    + rewrite !(field_step_JObj _ f pj o Hf).
      rewrite (overwrite_all_ext npv npv' _ _ H).
      rewrite (overwrite_all_same_keys npv' (keys npv) (keys npv'));
        [reflexivity| |now apply same_get_same_keys].
      intros k Hi. rewrite <- H. now apply Hn.
  - now rewrite !field_step_nullish by now rewrite Hf.
Qed.

Lemma for_of_same_get npv npv' fs (pj : PackageJson) :
  (forall k, get k npv = get k npv') -> no_inherited npv ->
  (forall f d, In f fs -> get f pj = Some d ->
     d = JNull \/ exists o, d = JObj o) ->
  for_of fs npv pj = for_of fs npv' pj.
Proof.
  intros H Hn. revert pj. induction fs as [|f fs IH]; intros pj Ht;
    [reflexivity|].
  rewrite !for_of_cons.
  rewrite (field_step_same_get npv npv' f pj H Hn)
    by (intros d; apply Ht; now left).
  destruct (field_step_typed npv' f pj) as (pj1 & -> & Hfr).
  { intros d. apply Ht. now left. }
  apply IH. intros g d Hg Hd.
  destruct (Hfr g d Hd) as [[_ Hold]|[_ Hnew]]; [|exact Hnew].
  apply (Ht g d); [now right|exact Hold].
Qed.

(** X4.  For a manifest whose dependency fields are missing, [null] or
    objects, the rewrite depends on a mapping that has no member of
    [Object.prototype] among its keys only through what it maps: two such
    mappings that give every key the same value, in whatever order they
    list their keys, give the same manifest and the same write. *)
Theorem updatePackageJson_key_order (path_join : string -> string -> string)
    p (pj : PackageJson) (npv npv' : obj string) :
  (forall k, get k npv = get k npv') -> no_inherited npv -> deps_typed pj ->
  updatePackageJson path_join p pj npv = updatePackageJson path_join p pj npv'.
Proof.
  intros H Hn Ht. unfold updatePackageJson.
  assert (Hv : set_own_version npv pj = set_own_version npv' pj)
    by (unfold set_own_version; destruct (to_property_key (get "name" pj));
        [now rewrite H|reflexivity]).
  rewrite <- Hv. destruct (set_own_version npv pj) as [pj1|e] eqn:H1;
    [|reflexivity].
  rewrite (for_of_same_get npv npv' dependencyFields pj1 H Hn); [reflexivity|].
  intros f d Hf Hd. apply (Ht f d Hf). rewrite <- Hd. symmetry.
  apply (set_own_version_frame npv pj pj1 f H1).
  now apply dependencyField_not_version.
Qed.
End KeyOrder.

(** * Further properties of the driver *)

(** ** The keys of the mapping *)

Lemma set_NoDup {A} k (v : A) (o : obj A) :
  NoDup (keys o) -> NoDup (keys (set k v o)).
Proof.
  intros Hnd. destruct (has k o) eqn:Hk.
  - now rewrite keys_set_has.
  - assert (Hg : get k o = None) by (unfold has in Hk; now destruct (get k o)).
    rewrite (set_new _ _ _ Hg). unfold keys. rewrite map_app. simpl.
    apply NoDup_app; [assumption|repeat constructor; auto|].
    intros x Hx [<-|[]]. apply get_None_In in Hg. contradiction.
Qed.

Lemma fold_set_NoDup {A} (es : list (string * A)) (o : obj A) :
  NoDup (keys o) ->
  NoDup (keys (fold_left (fun o e => set (fst e) (snd e) o) es o)).
Proof.
  revert o. induction es as [|e es IH]; intros o Hnd; [assumption|].
  simpl. apply IH. now apply set_NoDup.
Qed.

Lemma fold_set_keys {A} (es : list (string * A)) (o : obj A) :
  NoDup (keys o ++ map fst es)%list ->
  keys (fold_left (fun o e => set (fst e) (snd e) o) es o)
  = (keys o ++ map fst es)%list.
Proof.
  revert o. induction es as [|[k v] es IH]; intros o Hnd; simpl.
  - now rewrite app_nil_r.
  - assert (Hg : get k o = None).
    { apply get_None_In. intros Hin.
      apply NoDup_app_remove_r in Hnd as Hnd'.
      apply (NoDup_remove_2 _ _ _ Hnd). apply in_or_app. now left. }
    rewrite IH; rewrite (set_new _ _ _ Hg); unfold keys; rewrite map_app; simpl;
      rewrite <- app_assoc; [reflexivity|assumption].
Qed.

Section DriverExtras.
Variable path_join : string -> string -> string.
Variable getPackages : PackagesFilter -> completion (obj PackageInfo).
Variable setReactNativeVersion : string -> obj string -> completion unit.
Variable writeFile : WriteRequest -> completion unit.
Implicit Types (version : string) (skip : bool) (packages : obj PackageInfo).
Implicit Types (pkg : PackageInfo) (mapping : obj string).

Local Abbreviation run_of version skip :=
  (setVersion path_join getPackages setReactNativeVersion writeFile version skip).
Local Abbreviation rewrite_of mapping pkg :=
  (updatePackageJson path_join (path pkg) (packageJson pkg) mapping).

(** X5.  The mapping lists every key once, and lists the package names of
    the registry in the order of the registry. *)
Theorem newPackageVersions_keys_order packages version :
  NoDup (keys (newPackageVersions packages version)) /\
  (NoDup (keys packages) ->
   keys (newPackageVersions packages version) = keys packages).
Proof.
  unfold newPackageVersions, fromEntries. split.
  - apply fold_set_NoDup. constructor.
  - intros Hnd. rewrite fold_set_keys; simpl; rewrite map_map; simpl;
      rewrite map_id; [reflexivity|assumption].
Qed.

(** X6.  In a run where the registry and the platform setter resolve, the
    files written are the manifests of the packages not named
    [react-native] whose rewrite completes: one write each, in the order of
    the registry, and none for a rewrite that is rejected. *)
Theorem setVersion_writes version skip packages :
  getPackages public_packages = Normal packages ->
  setReactNativeVersion (if skip then "1000.0.0" else version)
    (newPackageVersions packages version) = Normal tt ->
  writes (trace (run_of version skip))
  = flat_map (fun pkg => write_of (snd (rewrite_of
                (newPackageVersions packages version) pkg)))
      (packagesToUpdate packages).
Proof.
  intros Hp Hs. rewrite (setVersion_resolved _ _ _ _ _ _ _ Hp Hs).
  cbv zeta. cbn [trace writes]. apply writes_dispatch_all.
Qed.

(** X7.  Nothing is rewritten or written before the platform setter has
    resolved: a call of [updatePackageJson] or [fs.writeFile] in a run means
    that the registry and the platform setter resolved; and when the
    platform setter rejects, the run rejects with its error. *)
Theorem setVersion_awaits_setter version skip :
  (forall e, In e (trace (run_of version skip)) ->
     (forall v m, e <> CallSetReactNativeVersion v m) ->
     exists packages,
       getPackages public_packages = Normal packages /\
       setReactNativeVersion (if skip then "1000.0.0" else version)
         (newPackageVersions packages version) = Normal tt) /\
  (forall packages err,
     getPackages public_packages = Normal packages ->
     setReactNativeVersion (if skip then "1000.0.0" else version)
       (newPackageVersions packages version) = Throw err ->
     outcome (run_of version skip) = Throw err /\
     rewritten (run_of version skip) = []).
Proof.
  split.
  - unfold setVersion. fold public_packages.
    destruct (getPackages public_packages) as [packages|err]; [|contradiction].
    cbv zeta. intros e He Hne. exists packages. split; [reflexivity|].
    destruct (setReactNativeVersion (if skip then "1000.0.0" else version)
                (newPackageVersions packages version)) as [[]|err] eqn:Hset;
      [reflexivity|].
    simpl in He. destruct He as [<-|[]]. exfalso. eapply Hne. reflexivity.
  - intros packages err Hp Hs. unfold setVersion. fold public_packages.
    rewrite Hp. cbv zeta. rewrite Hs. auto.
Qed.

(** X8.  A run resolves exactly when the registry resolves, the platform
    setter resolves, and for every package not named [react-native] the
    rewrite completes and its write resolves. *)
Theorem setVersion_resolves_iff version skip :
  outcome (run_of version skip) = Normal tt <->
  exists packages,
    getPackages public_packages = Normal packages /\
    setReactNativeVersion (if skip then "1000.0.0" else version)
      (newPackageVersions packages version) = Normal tt /\
    forall pkg, In pkg (packagesToUpdate packages) ->
      exists request,
        snd (rewrite_of (newPackageVersions packages version) pkg)
        = Normal request /\
        writeFile request = Normal tt.
Proof. apply outcome_Normal_iff. Qed.

(** X9.  The error a run rejects with is the rejection of the registry,
    or of the platform setter, or the [TypeError] or [RangeError] of the
    rewrite of a package to update, or the rejection of the write of such a
    package. *)
Theorem setVersion_error_origin version skip err :
  outcome (run_of version skip) = Throw err ->
  getPackages public_packages = Throw err \/
  exists packages,
    getPackages public_packages = Normal packages /\
    (setReactNativeVersion (if skip then "1000.0.0" else version)
       (newPackageVersions packages version) = Throw err \/
     exists pkg,
       In pkg (packagesToUpdate packages) /\
       (((err = TypeError \/ err = RangeError) /\
         snd (rewrite_of (newPackageVersions packages version) pkg)
         = Throw err) \/
        exists request,
          snd (rewrite_of (newPackageVersions packages version) pkg)
          = Normal request /\
          writeFile request = Throw err)).
Proof.
  unfold setVersion. fold public_packages.
  destruct (getPackages public_packages) as [packages|e0] eqn:Hget;
    [|cbn [outcome]; intros [= ->]; now left].
  cbv zeta. intros H. right. exists packages. split; [reflexivity|].
  destruct (setReactNativeVersion (if skip then "1000.0.0" else version)
              (newPackageVersions packages version)) as [[]|e1] eqn:Hset;
    [|cbn [outcome] in H; injection H as ->; now left].
  cbn [outcome] in H. right. apply Promise_all_Throw in H.
  rewrite map_map in H. apply in_map_iff in H. destruct H as (pkg & Hs & Hpkg).
  exists pkg. split; [assumption|].
  destruct (dispatch_fields path_join writeFile
              (newPackageVersions packages version) pkg) as (_ & _ & Hs').
  rewrite Hs' in Hs.
  destruct (snd (rewrite_of (newPackageVersions packages version) pkg))
    as [request|e] eqn:Hr.
  - right. eauto.
  - left. injection Hs as ->. split; [|reflexivity].
    eapply updatePackageJson_errors; eassumption.
Qed.

(** X10.  The skip flag changes no manifest: when the platform setter
    resolves for the sentinel and for the requested version, the runs with
    and without the flag write the same files with the same text and leave
    the manifests in the same state. *)
Theorem setVersion_skip_changes_no_manifest version packages :
  getPackages public_packages = Normal packages ->
  setReactNativeVersion "1000.0.0" (newPackageVersions packages version)
  = Normal tt ->
  setReactNativeVersion version (newPackageVersions packages version)
  = Normal tt ->
  writes (trace (run_of version true)) = writes (trace (run_of version false)) /\
  rewritten (run_of version true) = rewritten (run_of version false).
Proof.
  intros Hp Hs Hs'.
  rewrite (setVersion_resolved _ _ _ _ version true _ Hp Hs).
  rewrite (setVersion_resolved _ _ _ _ version false _ Hp Hs').
  split; reflexivity.
Qed.

Lemma calls_app t t' : calls (t ++ t') = (calls t ++ calls t')%list.
Proof.
  induction t as [|e t IH]; [reflexivity|].
  destruct e; simpl; now rewrite IH.
Qed.

Lemma calls_dispatch_all mapping (pkgs : list PackageInfo) :
  calls (flat_map did (map (dispatch path_join writeFile mapping) pkgs)) = pkgs.
Proof.
  induction pkgs as [|pkg pkgs IH]; [reflexivity|].
  simpl. rewrite calls_app, IH. unfold dispatch.
  now destruct (rewrite_of mapping pkg) as [pj' [request|e]].
Qed.

(** X13.  When the registry rejects, nothing is called and the run
    rejects with the error of the registry.  When it resolves, the platform
    setter is called once, before anything else. *)
Theorem setVersion_calls_setter_once version skip :
  (forall err, getPackages public_packages = Throw err ->
     trace (run_of version skip) = [] /\
     outcome (run_of version skip) = Throw err) /\
  (forall packages, getPackages public_packages = Normal packages ->
     exists rest,
       trace (run_of version skip)
       = CallSetReactNativeVersion (if skip then "1000.0.0" else version)
           (newPackageVersions packages version) :: rest /\
       forall e v m, In e rest -> e <> CallSetReactNativeVersion v m).
Proof.
  split.
  - intros err Hp. unfold setVersion. fold public_packages. now rewrite Hp.
  - intros packages Hp. unfold setVersion. fold public_packages. rewrite Hp.
    cbv zeta.
    destruct (setReactNativeVersion (if skip then "1000.0.0" else version)
                (newPackageVersions packages version)) as [u|err];
      cbn [trace]; eexists; (split; [reflexivity|]).
    + intros e v m He ->. apply in_flat_map in He.
      destruct He as (d & Hd & He). apply in_map_iff in Hd.
      destruct Hd as (pkg & <- & _). apply did_dispatch in He.
      destruct He as [He|(request & He & _)]; discriminate.
    + intros e v m [].
Qed.

(** X14.  In a run where the registry and the platform setter resolve,
    [updatePackageJson] is called once on each package of the registry that
    is not named [react-native], in the order of the registry, and on
    nothing else. *)
Theorem setVersion_calls version skip packages :
  getPackages public_packages = Normal packages ->
  setReactNativeVersion (if skip then "1000.0.0" else version)
    (newPackageVersions packages version) = Normal tt ->
  calls (trace (run_of version skip))
  = filter (fun pkg => negb (String.eqb (name pkg) "react-native"))
      (values packages).
Proof.
  intros Hp Hs. rewrite (setVersion_resolved _ _ _ _ _ _ _ Hp Hs).
  cbv zeta. cbn [trace calls]. apply calls_dispatch_all.
Qed.

(** X11.  In a run where the registry and the platform setter resolve,
    the manifest written for a package not named [react-native] has the
    requested version as its own version when its name is a package name of
    the registry, and the requested version for each dependency on a
    package of the registry in a [dependencies] or [devDependencies] that
    holds an object, [react-native] included and whatever the skip flag. *)
Theorem setVersion_aligns_manifest version skip packages pkg request :
  getPackages public_packages = Normal packages ->
  setReactNativeVersion (if skip then "1000.0.0" else version)
    (newPackageVersions packages version) = Normal tt ->
  In pkg (values packages) -> name pkg <> "react-native" ->
  snd (rewrite_of (newPackageVersions packages version) pkg) = Normal request ->
  let pj' := fst (rewrite_of (newPackageVersions packages version) pkg) in
  In (CallWriteFile request) (trace (run_of version skip)) /\
  data request = stringify pj' ++ nl /\
  (forall n, get "name" (packageJson pkg) = Some (JStr n) ->
     In n (keys packages) -> get "version" pj' = Some (JStr version)) /\
  (forall f o k, In f dependencyFields ->
     get f (packageJson pkg) = Some (JObj o) ->
     In k (keys o) -> In k (keys packages) ->
     exists o', get f pj' = Some (JObj o') /\
                get k o' = Some (JStr version)).
Proof.
  intros Hp Hs Hin Hname Hr pj'.
  assert (Hget : forall k, In k (keys packages) ->
                   get k (newPackageVersions packages version) = Some version).
  { intros k Hk. rewrite newPackageVersions_get.
    now destruct (in_dec string_dec k (keys packages)). }
  split; [|split; [|split]].
  - rewrite (setVersion_resolved _ _ _ _ _ _ _ Hp Hs). cbv zeta. cbn [trace].
    right. apply in_flat_map.
    exists (dispatch path_join writeFile
              (newPackageVersions packages version) pkg).
    split; [apply in_map; now apply packagesToUpdate_In|].
    unfold dispatch.
    destruct (rewrite_of (newPackageVersions packages version) pkg) as [pj0 c].
    simpl in Hr. subst c. simpl. auto.
  - now rewrite (updatePackageJson_request path_join _ _ _ _ Hr).
  - intros n Hn Hk. subst pj'.
    rewrite (updatePackageJson_version path_join _ _ _ n)
      by now rewrite Hn.
    now rewrite (Hget n Hk).
  - intros f o k Hf Ho Hk Hreg. eexists. split.
    + eapply updatePackageJson_field; eassumption.
    + apply overwrite_all_hit; [|now apply Hget|left; now apply has_In].
      apply has_In. eapply get_Some_has. now apply Hget.
Qed.

(** X12.  The process exits with code 0 exactly when the registry
    resolves, the platform setter resolves, and every rewrite completes and
    has its write resolve; otherwise it exits with code 1 after one call of
    [console.error] that names the requested version and gives the error. *)
Theorem main_exit_code (argv : Argv) :
  let version := toVersion argv in
  let skip := skipReactNativeVersionFlag argv in
  let exit := main path_join getPackages setReactNativeVersion writeFile argv in
  (exitCode exit = 0 <->
   exists packages,
     getPackages public_packages = Normal packages /\
     setReactNativeVersion (if skip then "1000.0.0" else version)
       (newPackageVersions packages version) = Normal tt /\
     forall pkg, In pkg (packagesToUpdate packages) ->
       exists request,
         snd (rewrite_of (newPackageVersions packages version) pkg)
         = Normal request /\
         writeFile request = Normal tt) /\
  ((exitCode exit = 0 /\ errors exit = []) \/
   exists err,
     outcome (run_of version skip) = Throw err /\
     exitCode exit = 1 /\
     errors exit = [("Failed to set version " ++ version ++ nl, err)]).
Proof.
  intros version skip exit. subst exit. unfold main.
  rewrite negb_involutive. fold version skip.
  rewrite <- (outcome_Normal_iff path_join getPackages setReactNativeVersion
                writeFile).
  destruct (outcome (run_of version skip)) as [[]|err]; cbn [exitCode errors].
  - split; [tauto|]. now left.
  - split; [split; discriminate|]. right. eauto.
Qed.
End DriverExtras.

(** ** The further properties on the examples *)

Lemma updatePackageJson_rejected_witness :
  snd (updatePackageJson join_posix "packages/core" sample_untyped
         sample_mapping) = Throw TypeError.
Proof.
  apply (updatePackageJson_rejected join_posix "packages/core" sample_untyped
           sample_mapping) with (d := JStr "none").
  - right. eexists. reflexivity.
  - discriminate.
  - reflexivity.
  - reflexivity.
Defined.

Lemma updatePackageJson_empty_mapping_witness :
  updatePackageJson join_posix "packages/core" sample_core []
  = (sample_core,
     Normal {| file := join_posix "packages/core" "package.json";
               data := stringify sample_core ++ nl |}).
Proof.
  apply (updatePackageJson_empty_mapping join_posix "packages/core"
           sample_core "core"); reflexivity.
Defined.

Lemma updatePackageJson_version_after_witness :
  get "version"
    (fst (updatePackageJson join_posix "packages/core" sample_core
            sample_mapping)) = Some (JStr "0.2.0").
Proof.
  apply (updatePackageJson_version_after join_posix "packages/core"
           sample_core sample_mapping "core").
  reflexivity.
Defined.

Lemma sample_constructor_mapping_NoDup :
  NoDup (keys sample_constructor_mapping).
Proof. repeat constructor. simpl. tauto. Defined.

Lemma updatePackageJson_field_closed_form_witness :
  exists o',
    get "dependencies"
      (fst (updatePackageJson join_posix "packages/app" sample_app
              sample_constructor_mapping)) = Some (JObj o') /\
    keys o' = (keys (@nil (string * json))
               ++ added_keys sample_constructor_mapping [])%list /\
    forall k,
      get k o'
      = match get k sample_constructor_mapping with
        | Some v =>
            if has k (@nil (string * json))
               || (inherited k && negb (String.eqb k "__proto__"))
            then Some (JStr v) else None
        | None => get k (@nil (string * json))
        end.
Proof.
  eapply (updatePackageJson_field_closed_form join_posix "packages/app"
            sample_app sample_constructor_mapping).
  - reflexivity.
  - left. reflexivity.
  - reflexivity.
  - exact sample_constructor_mapping_NoDup.
Defined.

Lemma sample_mapping_reversed_same (k : string) :
  get k sample_mapping = get k sample_mapping_reversed.
Proof.
  simpl. now destruct (String.eqb k "core"), (String.eqb k "tool-a").
Defined.

Lemma sample_mapping_no_inherited : no_inherited sample_mapping.
Proof.
  intros k Hi. simpl.
  destruct (String.eqb_spec k "core") as [E|_];
    [rewrite E in Hi; discriminate Hi|].
  destruct (String.eqb_spec k "tool-a") as [E|_];
    [rewrite E in Hi; discriminate Hi|reflexivity].
Defined.

Lemma sample_core_typed : deps_typed sample_core.
Proof.
  intros f deps [<-|[<-|[]]]; vm_compute; intros [= <-]; right; eexists;
    reflexivity.
Defined.

Lemma updatePackageJson_key_order_witness :
  updatePackageJson join_posix "packages/core" sample_core sample_mapping
  = updatePackageJson join_posix "packages/core" sample_core
      sample_mapping_reversed.
Proof.
  apply (updatePackageJson_key_order join_posix "packages/core" sample_core
           sample_mapping sample_mapping_reversed).
  - exact sample_mapping_reversed_same.
  - exact sample_mapping_no_inherited.
  - exact sample_core_typed.
Defined.

Lemma setVersion_writes_witness :
  map file (writes (trace (setVersion join_posix sample_registry
                             setter_resolves write_rejects "0.2.0" true)))
  = ["packages/core/package.json"; "packages/tool-a/package.json"].
Proof.
  rewrite (setVersion_writes join_posix sample_registry setter_resolves
             write_rejects "0.2.0" true sample_packages);
    reflexivity.
Defined.

Lemma setVersion_error_origin_witness :
  sample_registry public_packages = Throw (Rejected "EACCES") \/
  exists packages,
    sample_registry public_packages = Normal packages /\
    (setter_resolves "0.2.0" (newPackageVersions packages "0.2.0")
     = Throw (Rejected "EACCES") \/
     exists pkg,
       In pkg (packagesToUpdate packages) /\
       (((Rejected "EACCES" = TypeError \/ Rejected "EACCES" = RangeError) /\
         snd (updatePackageJson join_posix (path pkg) (packageJson pkg)
                (newPackageVersions packages "0.2.0"))
         = Throw (Rejected "EACCES")) \/
        exists request,
          snd (updatePackageJson join_posix (path pkg) (packageJson pkg)
                 (newPackageVersions packages "0.2.0")) = Normal request /\
          write_rejects request = Throw (Rejected "EACCES"))).
Proof.
  apply (setVersion_error_origin join_posix sample_registry setter_resolves
           write_rejects "0.2.0" false (Rejected "EACCES")).
  reflexivity.
Defined.

Lemma setVersion_skip_changes_no_manifest_witness :
  writes (trace (setVersion join_posix sample_registry setter_resolves
                   write_resolves "0.2.0" true))
  = writes (trace (setVersion join_posix sample_registry setter_resolves
                     write_resolves "0.2.0" false)) /\
  rewritten (setVersion join_posix sample_registry setter_resolves
               write_resolves "0.2.0" true)
  = rewritten (setVersion join_posix sample_registry setter_resolves
                 write_resolves "0.2.0" false).
Proof.
  apply (setVersion_skip_changes_no_manifest join_posix sample_registry
           setter_resolves write_resolves "0.2.0" sample_packages);
    reflexivity.
Defined.

Lemma setVersion_aligns_manifest_witness :
  exists o',
    get "devDependencies"
      (fst (updatePackageJson join_posix "packages/core" sample_core
              (newPackageVersions sample_packages "0.2.0"))) = Some (JObj o') /\
    get "tool-a" o' = Some (JStr "0.2.0").
Proof.
  eapply (setVersion_aligns_manifest join_posix sample_registry
            setter_resolves write_resolves "0.2.0" true sample_packages
            {| name := "core"; path := "packages/core";
               packageJson := sample_core |}).
  - reflexivity.
  - reflexivity.
  - left. reflexivity.
  - discriminate.
  - reflexivity.
  - right. left. reflexivity.
  - reflexivity.
  - left. reflexivity.
  - right. left. reflexivity.
Defined.

Lemma setVersion_calls_witness :
  map name (calls (trace (setVersion join_posix sample_registry
                            setter_resolves write_rejects "0.2.0" false)))
  = ["core"; "tool-a"].
Proof.
  rewrite (setVersion_calls join_posix sample_registry setter_resolves
             write_rejects "0.2.0" false sample_packages);
    reflexivity.
Defined.
